(** * monexif: the image-record store, its grouping engine and its
      spreadsheet synchronisation, embedded from [src/monexif/monexif.py].

    The program keeps one SQLite table, [imgdata].  The embedding models
    that table as a list of rows in scan order, every row a finite map
    from column names to SQL values, and the four statements the program
    issues ([select ... where], [update ... where], [insert], and
    [drop]/[create table]) as functions on it.  Python exceptions are an
    explicit error type threaded through a state-and-error monad, so that
    a failure half-way through a function leaves the updates already
    executed in place, as the connection does.

    Names are ASCII text.  Outside the model: the text of the SQL
    statements (identifier quoting, case-insensitive column names),
    REAL/BLOB values, transactions, letters outside ASCII in Python
    identifiers, and a registry field that is no column of the table but
    names a method of Python's tuples.  [insert] stores the bound values
    as they are; the values SQLite's column affinity and the workbook
    file keep as they are, are singled out by [conforms] and
    [kept_by_workbook] where a property depends on them. *)

From Stdlib Require Import ZArith Ascii String List.
From stdpp Require Import base option list strings pretty gmap fin_maps fin_sets.

Open Scope string_scope.
Open Scope list_scope.

(** ** SQL values and rows *)

(** A stored value as Python's sqlite3 hands it over: [None], an [int] or
    a [str]. *)
Inductive value : Type :=
  | VNull
  | VInt (n : Z)
  | VText (s : string).

#[global] Instance value_eq_dec : EqDecision value.
Proof. solve_decision. Defined.

Abbreviation row := (gmap string value).

(** [getattr(rec, field_name, None)]: the value of a column of a fetched
    record, [None] when the record has no such attribute. *)
Definition get (r : row) (f : string) : value := default VNull (r !! f).

(** [x is None] *)
Definition is_none (v : value) : bool :=
  match v with VNull => true | _ => false end.

(** [column = ?] in a [where] clause: NULL equals nothing, not even
    NULL. *)
Definition sql_eq (v p : value) : bool :=
  match v, p with
  | VNull, _ | _, VNull => false
  | _, _ => bool_decide (v = p)
  end.

(** Python's [value != obs_id] with [obs_id] a [str]. *)
Definition py_ne (v : value) (s : string) : bool :=
  negb (bool_decide (v = VText s)).

(** The table [imgdata]: its columns with their declared types, in
    declaration order, and its rows in scan order. *)
Record table : Type := Table {
  columns : list (string * string);
  rows : list row
}.

Definition has_column (t : table) (c : string) : bool :=
  bool_decide (c ∈ (columns t).*1).

(** ** Exceptions and the state-and-error monad *)

Inductive exn : Type :=
  | IndexError          (* list index out of range *)
  | KeyError            (* missing dictionary key *)
  | AttributeError      (* method of a value of the wrong type *)
  | OSError             (* unreadable image file *)
  | OperationalError    (* sqlite3: no such column, duplicate column *)
  | ProgrammingError    (* sqlite3: wrong number of bindings *)
  | ValueError          (* namedtuple: a field name it does not accept *)
  | StopIteration.      (* next() on a worksheet without rows *)

Inductive outcome (A : Type) : Type :=
  | Returned (a : A)
  | Raised (e : exn).
Arguments Returned {A} a.
Arguments Raised {A} e.

(** What a run of the program can change: the table behind the connection
    and the number of identifiers [uuid4()] has handed out so far. *)
Record world : Type := World {
  imgdata : table;
  uuid_calls : nat
}.

Definition M (A : Type) : Type := world → world * outcome A.

Definition ret {A} (a : A) : M A := λ w, (w, Returned a).
Definition raise {A} (e : exn) : M A := λ w, (w, Raised e).
Definition bind {A B} (m : M A) (k : A → M B) : M B :=
  λ w, match m w with
       | (w', Returned a) => k a w'
       | (w', Raised e) => (w', Raised e)
       end.

#[global] Instance M_ret : MRet M := @ret.
#[global] Instance M_bind : MBind M := λ A B k m, bind m k.

(** [for x in xs: body x] *)
Fixpoint for_each {A} (xs : list A) (body : A → M unit) : M unit :=
  match xs with
  | [] => ret tt
  | x :: xs' => body x ;; for_each xs' body
  end.

(** [xs[i]] *)
Definition index {A} (xs : list A) (i : nat) : M A :=
  match xs !! i with
  | Some x => ret x
  | None => raise IndexError
  end.

(** ** The statements the program executes *)

(** [select * from imgdata where c in (?, ..., ?)] *)
Definition select_in (c : string) (ps : list value) : M (list row) :=
  λ w, let t := imgdata w in
       if has_column t c
       then (w, Returned (filter (λ r, existsb (sql_eq (get r c)) ps = true) (rows t)))
       else (w, Raised OperationalError).

(** [update imgdata set f1=?, ..., fn=? where c=?] *)
Definition assign (sets : list (string * value)) (r : row) : row :=
  foldl (λ acc fv, <[fv.1 := fv.2]> acc) r sets.

Definition update_where (sets : list (string * value)) (c : string) (p : value)
  : M unit :=
  λ w, let t := imgdata w in
       if forallb (has_column t) (c :: sets.*1)
       then (World (Table (columns t)
                      ((λ r, if sql_eq (get r c) p then assign sets r else r) <$> rows t))
                   (uuid_calls w), Returned tt)
       else (w, Raised OperationalError).

(** ** Fetched records *)

Definition is_letter (c : ascii) : bool :=
  let n := N_of_ascii c in
  ((65 <=? n) && (n <=? 90) || (97 <=? n) && (n <=? 122))%N.

Definition is_digit (c : ascii) : bool :=
  let n := N_of_ascii c in ((48 <=? n) && (n <=? 57))%N.

Definition is_underscore (c : ascii) : bool := Ascii.eqb c "_"%char.

(** [s.isidentifier()] *)
Definition isidentifier (s : string) : bool :=
  match list_ascii_of_string s with
  | [] => false
  | c :: cs =>
      (is_letter c || is_underscore c) &&
      forallb (λ d, is_letter d || is_digit d || is_underscore d) cs
  end.

(** [keyword.kwlist] *)
Definition kwlist : list string :=
  ["False"; "None"; "True"; "and"; "as"; "assert"; "async"; "await";
   "break"; "class"; "continue"; "def"; "del"; "elif"; "else"; "except";
   "finally"; "for"; "from"; "global"; "if"; "import"; "in"; "is";
   "lambda"; "nonlocal"; "not"; "or"; "pass"; "raise"; "return"; "try";
   "while"; "with"; "yield"].

Definition iskeyword (s : string) : bool := bool_decide (s ∈ kwlist).

(** [s.startswith("_")] *)
Definition startswith_underscore (s : string) : bool :=
  match s with
  | String c _ => is_underscore c
  | EmptyString => false
  end.

(** The field names [namedtuple("Record", names)] accepts: identifiers
    that are no keywords, none starting with an underscore, none
    twice. *)
Definition field_names_ok (names : list string) : bool :=
  forallb (λ name, isidentifier name && negb (iskeyword name)) names &&
  forallb (λ name, negb (startswith_underscore name)) names &&
  bool_decide (NoDup names).

(** [named_tuples(cursor)] after a [select *]: the description of the
    cursor names the columns of the table. *)
Definition named_tuples (cursor : list row) : M (list row) :=
  λ w, if field_names_ok (columns (imgdata w)).*1
       then (w, Returned cursor)
       else (w, Raised ValueError).

(** [rec.name] for a fetched record: its fields are the columns of the
    table. *)
Definition attribute (r : row) (name : string) : M value :=
  λ w, if has_column (imgdata w) name
       then (w, Returned (get r name))
       else (w, Raised AttributeError).

(** ** The field registry, [monexif_fields.yml] *)

Record field_def : Type := FieldDef {
  fd_name : string;
  fd_type : option string;
  fd_copy : bool
}.

Section Grouping.

(** The registry file is configuration and is read, not written, by the
    program: it is a parameter of the development.  [fd_copy] is the
    truth value of [field.get("copy")]. *)
Variable registry : list field_def.

(** The dictionary [updates] of one direction of the copy pass. *)
Definition updates_of (from_ to : row) : list (string * value) :=
  omap (λ fd, if fd_copy fd && is_none (get to (fd_name fd))
              then Some (fd_name fd, get from_ (fd_name fd))
              else None) registry.

Definition copy_pass (obs : list row) : M unit :=
  for_each [(0, 1); (1, 0)]%nat (λ '(from_, to),
    dst ← index obs to;
    src ← index obs from_;
    let updates := updates_of src dst in
    match updates with
    | [] => ret tt
    | _ => update_where updates "observation_id" (get dst "observation_id")
    end).

(** [set_related(con, obs_id0, obs_id1)]:
    "Move obs_id0 into the same group as obs_id1". *)
Definition set_related (obs_id0 obs_id1 : string) : M unit :=
  cur ← select_in "observation_id" [VText obs_id0; VText obs_id1];
  obs ← named_tuples cur;
  first ← index obs 0;
  let obs := if py_ne (get first "observation_id") obs_id0
             then reverse obs else obs in
  o1 ← index obs 1;
  group_id ← attribute o1 "group_id";
  o0 ← index obs 0;
  update_where [("group_id", group_id)]
               "observation_id" (get o0 "observation_id");;
  copy_pass obs.

End Grouping.

(** ** Ingestion and ungrouping *)

(** [s.replace(old, new, count)] for one-character [old] and [new]. *)
Fixpoint replace_char (old new : ascii) (count : nat) (s : string) : string :=
  match s, count with
  | String c s', S n =>
      if Ascii.eqb c old then String new (replace_char old new n s')
      else String c (replace_char old new count s')
  | _, _ => s
  end.

(** What the collaborators report of one image file: the last segment of
    its path, the length and the SHA-256 digest of its bytes, and the
    attributes [read_exif] could read. *)
Record image : Type := Image {
  img_name : string;
  img_bytes : Z;
  img_hash : string;
  img_exif : gmap string value
}.

(** The row of a table for [insert into imgdata (fields) values (vals)]:
    the given value under a named column, NULL under every other. *)
Definition new_row (cols : list string) (given : list (string * value)) : row :=
  list_to_map
    ((λ c, (c, default VNull ((list_to_map given : gmap string value) !! c)))
       <$> cols).

Section Ingestion.

(** [uuid4 n] is the hexadecimal form of the identifier the [n]-th call
    of [uuid4()] returns in this run; [files basedir path] is the image
    at [Path(basedir) / path], if it can be read. *)
Variable uuid4 : nat → string.
Variable files : string → string → option image.

(** [uuid4().hex] *)
Definition uuid4_hex : M string :=
  λ w, (World (imgdata w) (S (uuid_calls w)), Returned (uuid4 (uuid_calls w))).

(** [read_exif(fullpath)] and [fullpath.read_bytes()] *)
Definition read_image (basedir path : string) : M image :=
  match files basedir path with
  | Some img => mret img
  | None => raise OSError
  end.

(** [exif[key]] *)
Definition exif_item (img : image) (key : string) : M value :=
  match img_exif img !! key with
  | Some v => mret v
  | None => raise KeyError
  end.

(** [v.replace(":", "/", 2)] *)
Definition replace_colons (v : value) : M value :=
  match v with
  | VText s => mret (VText (replace_char ":"%char "/"%char 2 s))
  | _ => raise AttributeError
  end.

(** [insert_row(con, fields, row)].  The bound values are stored as
    they are; [conforms] singles out the values a typed column keeps
    so. *)
Definition insert_row (fields : list string) (vals : list value) : M unit :=
  λ w, let t := imgdata w in
       if negb (forallb (has_column t) fields)
       then (w, Raised OperationalError)
       else if negb (Nat.eqb (List.length fields) (List.length vals))
       then (w, Raised ProgrammingError)
       else (World (Table (columns t) (rows t ++ [new_row (columns t).*1 (zip fields vals)]))
                   (uuid_calls w), Returned tt).

(** [add_images(con, basedir, paths)].  The body ends without a
    [return]: the call evaluates to [None]. *)
Definition add_images (basedir : string) (paths : list string) : M (option Z) :=
  for_each paths (λ path,
    res ← select_in "image_path" [VText path];
    match res with
    | _ :: _ => mret tt
    | [] =>
        img ← read_image basedir path;
        t ← exif_item img "datetime_original";
        image_time ← replace_colons t;
        image_w ← exif_item img "pixel_x_dimension";
        image_h ← exif_item img "pixel_y_dimension";
        observation_id ← uuid4_hex;
        group_id ← uuid4_hex;
        insert_row
          ["image_name"; "image_path"; "image_bytes"; "image_time";
           "image_w"; "image_h"; "image_hash"; "observation_id";
           "group_id"; "group_number"]
          [VText (img_name img); VText path; VInt (img_bytes img); image_time;
           image_w; image_h; VText (img_hash img); VText observation_id;
           VText group_id; VInt 1]
    end);;
  mret None.

(** [unset_related(con, obs_id)] *)
Definition unset_related (obs_id : string) : M unit :=
  g ← uuid4_hex;
  update_where [("group_id", VText g)] "observation_id" (VText obs_id).

End Ingestion.

(** ** Synchronisation with the spreadsheet *)

(** The active worksheet of the workbook as [iter(ws)] yields it, a
    rectangle of cells: the first row, naming fields, and the data rows
    below it.  A worksheet without cells yields no row at all, so it has
    no header: it is the sheet with the empty header. *)
Record sheet : Type := Sheet {
  header : list string;
  data : list (list value)
}.

(** *** What the workbook file keeps *)

(** [wb.save] writes no cell for [None], so the rows without a value at
    the end of the worksheet are not in the file: [load_workbook] yields
    the rows up to the last one that has a value. *)
Fixpoint strip_rows (rows : list (list value)) : list (list value) :=
  match rows with
  | [] => []
  | r :: rows' =>
      match strip_rows rows' with
      | [] => if forallb is_none r then [] else [r]
      | kept => r :: kept
      end
  end.

(** A cell with the empty string is written without content and read
    back as [None]. *)
Definition reloaded_cell (v : value) : value :=
  match v with
  | VText EmptyString => VNull
  | _ => v
  end.

(** The worksheet [load_workbook] yields for the file [wb.save] wrote. *)
Definition saved (ws : sheet) : sheet :=
  Sheet (header ws) ((λ r : list value, reloaded_cell <$> r) <$> strip_rows (data ws)).

Definition is_printable (c : ascii) : bool :=
  let n := N_of_ascii c in ((32 <=? n) && (n <=? 126))%N.

(** The values a cell returns as they were written: [None], integers,
    and text that is not empty, is printable, does not start a formula
    and is within the length of a cell. *)
Definition kept_by_workbook (v : value) : bool :=
  match v with
  | VNull | VInt _ => true
  | VText s =>
      negb (bool_decide (s = EmptyString)) &&
      forallb is_printable (list_ascii_of_string s) &&
      negb (String.prefix "=" s) &&
      (N.of_nat (String.length s) <=? 32767)%N
  end.

(** Every cell of the sheet is kept by the file, and so is its last
    row. *)
Definition kept_sheet (ws : sheet) : bool :=
  forallb (forallb kept_by_workbook) (data ws) &&
  match last (data ws) with
  | Some r => negb (forallb is_none r)
  | None => true
  end.

(** *** What a typed column keeps *)

Inductive affinity : Type :=
  | IntegerAffinity
  | TextAffinity
  | BlobAffinity
  | RealAffinity
  | NumericAffinity.

Definition upper_char (c : ascii) : ascii :=
  let n := N_of_ascii c in
  if ((97 <=? n) && (n <=? 122))%N then ascii_of_N (n - 32) else c.

Fixpoint upper (s : string) : string :=
  match s with
  | String c s' => String (upper_char c) (upper s')
  | EmptyString => EmptyString
  end.

(** [sub in s] *)
Fixpoint contains (sub s : string) : bool :=
  String.prefix sub s ||
  match s with
  | String _ s' => contains sub s'
  | EmptyString => false
  end.

(** The affinity SQLite gives a column from its declared type. *)
Definition affinity_of (declared : string) : affinity :=
  let ty := upper declared in
  if contains "INT" ty then IntegerAffinity
  else if contains "CHAR" ty || contains "CLOB" ty || contains "TEXT" ty
  then TextAffinity
  else if contains "BLOB" ty || bool_decide (ty = EmptyString)
  then BlobAffinity
  else if contains "REAL" ty || contains "FLOA" ty || contains "DOUB" ty
  then RealAffinity
  else NumericAffinity.

(** The values a column of that declared type stores as they are bound:
    NULL anywhere, text where the affinity is TEXT or BLOB, a 64-bit
    integer where it is INTEGER, NUMERIC or BLOB. *)
Definition conforms (declared : string) (v : value) : bool :=
  match v with
  | VNull => true
  | VText _ =>
      match affinity_of declared with
      | TextAffinity | BlobAffinity => true
      | _ => false
      end
  | VInt n =>
      match affinity_of declared with
      | IntegerAffinity | NumericAffinity | BlobAffinity =>
          ((- 2 ^ 63 <=? n) && (n <? 2 ^ 63))%Z
      | _ => false
      end
  end.

(** [select f1, ..., fn from imgdata] *)
Definition select_fields (fields : list string) : M (list (list value)) :=
  λ w, let t := imgdata w in
       if bool_decide (fields ≠ []) && forallb (has_column t) fields
       then (w, Returned ((λ r, get r <$> fields) <$> rows t))
       else (w, Raised OperationalError).

(** [create table imgdata (...)] on a connection without that table. *)
Definition create_table (cols : list (string * string)) : outcome table :=
  if bool_decide (cols ≠ [] ∧ NoDup cols.*1)
  then Returned (Table cols [])
  else Raised OperationalError.

(** [sqlite_to_xlsx(con, xlsx_path)], for the worksheet [ws] of the file:
    the worksheet the saved file holds. *)
Definition sqlite_to_xlsx (ws : sheet) : M sheet :=
  match header ws with
  | [] => raise StopIteration
  | fields =>
      res ← select_fields fields;
      mret (saved (Sheet fields res))
  end.

Section Sync.

Variable registry : list field_def.

(** [{k: v["type"] for k, v in field_defs()["fields"].items()}] *)
Definition field_types : option (list (string * string)) :=
  mapM (λ fd, pair (fd_name fd) <$> fd_type fd) registry.

(** [field_type.get(field, "text")] *)
Definition type_of (field_type : list (string * string)) (field : string)
  : string :=
  default "text" ((list_to_map field_type : gmap string string) !! field).

(** [xlsx_to_sqlite(xlsx_path, sqlite_path)]: the table of the
    connection it returns.  An existing [imgdata] is dropped first, so
    the result does not depend on it. *)
Definition xlsx_to_sqlite (ws : sheet) : outcome table :=
  match field_types with
  | None => Raised KeyError
  | Some field_type =>
      match header ws with
      | [] => Raised StopIteration
      | fields =>
          let sql :=
            ((λ field, (field, type_of field_type field)) <$> fields) ++
            ((λ field, (field, type_of field_type field))
               <$> filter (λ field, field ∉ fields) field_type.*1) in
          match create_table sql with
          | Raised e => Raised e
          | Returned t =>
              match for_each (data ws) (λ row, insert_row fields row)
                      (World t 0) with
              | (w, Returned _) => Returned (imgdata w)
              | (_, Raised e) => Raised e
              end
          end
      end
  end.

(** The type [xlsx_to_sqlite] declares for the column of a field. *)
Definition declared_type (field : string) : string :=
  type_of (default [] field_types) field.

(** Every cell of the sheet is a value the column of its field stores
    as it is. *)
Definition sheet_conforms (ws : sheet) : bool :=
  forallb (λ vals, forallb (λ fv, conforms (declared_type fv.1) fv.2)
                     (zip (header ws) vals))
          (data ws).

End Sync.

(** ** Reading the store *)

Definition oid (r : row) : value := get r "observation_id".
Definition gid (r : row) : value := get r "group_id".

(** The records of the store whose [observation_id] is [x]. *)
Definition records_of (t : table) (x : string) : list row :=
  filter (λ r, oid r = VText x) (rows t).

(** The registry flags field [f] as copy-on-merge. *)
Definition copyable (registry : list field_def) (f : string) : bool :=
  existsb (λ fd, bool_decide (fd_name fd = f) && fd_copy fd) registry.

(** The table has the two identifier columns and a column for every
    copy-on-merge field, as every table made by [xlsx_to_sqlite] has. *)
Definition schema_ok (registry : list field_def) (t : table) : bool :=
  has_column t "observation_id" && has_column t "group_id" &&
  forallb (λ fd, implb (fd_copy fd) (has_column t (fd_name fd))) registry.

(** Every column of the table has a name that [namedtuple] accepts as
    a field of the fetched records. *)
Definition tuple_fields_ok (t : table) : bool :=
  field_names_ok (columns t).*1.

(** Two records agree on every field. *)
Definition same_fields (r1 r2 : row) : Prop := ∀ f, get r1 f = get r2 f.

(** The two records after [set_related] has moved [A] into the group of
    [B]: what the three [update] statements leave in their rows. *)
Definition merged_from (registry : list field_def) (A B : row) : row :=
  assign (updates_of registry B A) (<["group_id" := gid B]> A).

Definition merged_to (registry : list field_def) (A B : row) : row :=
  assign (updates_of registry A B) B.

Definition merge_rows (registry : list field_def) (a b : string) (A B r : row)
  : row :=
  if decide (oid r = VText a) then merged_from registry A B
  else if decide (oid r = VText b) then merged_to registry A B
  else r.

(** The rows [select * from imgdata where observation_id in (a, b)]
    returns, in scan order. *)
Definition fetched (a b : string) (l : list row) : list row :=
  filter (λ r, existsb (sql_eq (get r "observation_id")) [VText a; VText b] = true) l.

(** The world after [update imgdata set ... where observation_id = p]. *)
Definition updated (sets : list (string * value)) (p : value) (w : world)
  : world :=
  World (Table (columns (imgdata w))
           ((λ r, if sql_eq (oid r) p then assign sets r else r)
              <$> rows (imgdata w)))
        (uuid_calls w).

(** The field-value tuples of the table over the given fields, one per
    row, in scan order. *)
Definition project (fields : list string) (t : table) : list (list value) :=
  (λ r, get r <$> fields) <$> rows t.

(** ** Runs of the program *)

(** The operations a caller applies to a store, one after the other; a
    call that raises leaves the connection in the state it reached. *)
Inductive op : Type :=
  | AddImages (basedir : string) (paths : list string)
  | SetRelated (obs_id0 obs_id1 : string)
  | UnsetRelated (obs_id : string).

Section Runs.

Variable registry : list field_def.
Variable uuid4 : nat → string.
Variable files : string → string → option image.

Definition step (w : world) (o : op) : world :=
  match o with
  | AddImages basedir paths => (add_images uuid4 files basedir paths w).1
  | SetRelated a b => (set_related registry a b w).1
  | UnsetRelated a => (unset_related uuid4 a w).1
  end.

Definition run (ops : list op) (w : world) : world := foldl step w ops.

(** [v] is one of the first [n] identifiers [uuid4()] handed out. *)
Definition drawn (n : nat) (v : value) : Prop :=
  ∃ i, (i < n)%nat ∧ v = VText (uuid4 i).

Definition identified (n : nat) (r : row) : Prop :=
  drawn n (oid r) ∧ drawn n (gid r).

(** The invariant of an ingested store: both identifiers of every
    record were drawn from [uuid4()], no two records share an
    [observation_id], and a table with rows has the identifier
    columns. *)
Definition ingested (w : world) : Prop :=
  Forall (identified (uuid_calls w)) (rows (imgdata w)) ∧
  NoDup (oid <$> rows (imgdata w)) ∧
  (rows (imgdata w) = [] ∨
   has_column (imgdata w) "observation_id" = true ∧
   has_column (imgdata w) "group_id" = true).

(** The invariant together with a snapshot of fetched records. *)
Definition holding (n : nat) (obs : list row) (w : world) : Prop :=
  ingested w ∧ uuid_calls w = n ∧ Forall (identified n) obs.

(** [w] is [w0] after some records were ingested: the rows of [w0]
    followed by new rows, every new row in group number 1 and in a
    group of its own drawn since [w0]. *)
Definition grown (w0 w : world) : Prop :=
  ingested w ∧
  (uuid_calls w0 ≤ uuid_calls w)%nat ∧
  ∃ new, rows (imgdata w) = rows (imgdata w0) ++ new ∧
    Forall (λ r, get r "group_number" = VInt 1 ∧
                 ∃ j, (uuid_calls w0 ≤ j < uuid_calls w)%nat ∧
                      gid r = VText (uuid4 j)) new ∧
    NoDup (gid <$> new).

End Runs.

(** [{P} m {Q | E}]: from a world in [P], [m] returns [a] in a world in
    [Q a], or raises in a world in [E]. *)
Definition triple {A} (P : world → Prop) (m : M A)
    (Q : A → world → Prop) (E : world → Prop) : Prop :=
  ∀ w, P w → match m w with
             | (w', Returned a) => Q a w'
             | (w', Raised _) => E w'
             end.

(** ** A small store to run the program on *)

Module Demo.

Definition registry : list field_def :=
  [ FieldDef "image_name" (Some "text") false;
    FieldDef "image_path" (Some "text") false;
    FieldDef "image_bytes" (Some "int") false;
    FieldDef "image_time" (Some "text") false;
    FieldDef "image_w" (Some "int") false;
    FieldDef "image_h" (Some "int") false;
    FieldDef "image_hash" (Some "text") false;
    FieldDef "observation_id" (Some "text") false;
    FieldDef "group_id" (Some "text") false;
    FieldDef "group_number" (Some "int") false;
    FieldDef "species" (Some "text") true;
    FieldDef "notes" (Some "text") false ].

Definition cols : list (string * string) :=
  (λ fd, (fd_name fd, default "text" (fd_type fd))) <$> registry.

Definition record (path obs_id group_id : string) (species notes : value)
  : row :=
  new_row cols.*1
    [("image_path", VText path); ("observation_id", VText obs_id);
     ("group_id", VText group_id); ("group_number", VInt 1);
     ("species", species); ("notes", notes)].

(** [b] comes first in scan order; [c] is already in the group of [b]. *)
Definition rec_a : row := record "a.jpg" "a" "g1" VNull (VText "dusk").
Definition rec_b : row := record "b.jpg" "b" "g2" (VText "fox") VNull.
Definition rec_c : row := record "c.jpg" "c" "g2" VNull VNull.

Definition store : world := World (Table cols [rec_b; rec_a; rec_c]) 0.

Definition empty_store : world := World (Table cols []) 0.

(** The [n]-th identifier is the decimal numeral of [n]. *)
Definition uuid4 (n : nat) : string := pretty n.

Definition files (basedir path : string) : option image :=
  if bool_decide (basedir = "pics" ∧ path ∈ ["a.jpg"; "b.jpg"])
  then Some (Image path 2048 "9f86d081"
               (list_to_map
                  [("datetime_original", VText "2023:06:01 18:30:00");
                   ("pixel_x_dimension", VInt 4000);
                   ("pixel_y_dimension", VInt 3000)]))
  else None.

Definition book : sheet := Sheet ["image_path"; "species"] [].

End Demo.

(** ** File names, the data file, and the folder scan *)

(** [s.replace(old, new)] for one-character [old] and [new]. *)
Fixpoint replace_all_char (old new : ascii) (s : string) : string :=
  match s with
  | String c s' =>
      String (if Ascii.eqb c old then new else c) (replace_all_char old new s')
  | EmptyString => EmptyString
  end.

(** [s.replace(old, "")] for a one-character [old]. *)
Fixpoint remove_char (old : ascii) (s : string) : string :=
  match s with
  | String c s' =>
      if Ascii.eqb c old then remove_char old s'
      else String c (remove_char old s')
  | EmptyString => EmptyString
  end.

(** [image_time_filename(exif)] *)
Definition image_time_filename (exif : gmap string value) : M string :=
  match exif !! "datetime_original" with
  | None => raise KeyError
  | Some (VText s) =>
      mret (String.append
              (replace_all_char " "%char "_"%char (remove_char ":"%char s))
              ".jpg")
  | Some _ => raise AttributeError
  end.


#[global] Instance value_countable : Countable value.
Proof.
  refine (inj_countable'
            (λ v, match v with
                  | VNull => inl ()
                  | VInt n => inr (inl n)
                  | VText s => inr (inr s)
                  end)
            (λ x, match x with
                  | inl _ => VNull
                  | inr (inl n) => VInt n
                  | inr (inr s) => VText s
                  end) _).
  by intros [].
Defined.

(** The five numbers [check_new] prints. *)
Record report : Type := Report {
  in_folder : nat;
  in_data : nat;
  folder_only : nat;
  data_only : nat;
  in_both : nat
}.

(** [set(map(lambda x: x[0], con.execute("select image_path from imgdata")))] *)
Definition image_recs : M (gset value) :=
  res ← select_fields ["image_path"];
  mret (list_to_set (omap (λ x : list value, x !! 0%nat) res)).

(** [p] for the [str] value [VText p]. *)
Definition text_of (v : value) : option string :=
  match v with VText p => Some p | _ => None end.

Section Folder.

Variable uuid4 : nat → string.
Variable files : string → string → option image.

(** [image_list path] is the result of the directory scan of [path];
    [iter_set s] is the order in which Python iterates the set [s]. *)
Variable image_list : string → list string.
Variable iter_set : gset value → list value.

(** [check_new(con, img_path)]: what it prints. *)
Definition check_new (img_path : string) : M report :=
  let img_paths : gset value := list_to_set (VText <$> image_list img_path) in
  img_recs ← image_recs;
  mret (Report (size img_paths) (size img_recs)
               (size (img_paths ∖ img_recs)) (size (img_recs ∖ img_paths))
               (size (img_recs ∩ img_paths))).

(** [load_new(con, img_path)] *)
Definition load_new (img_path : string) : M unit :=
  let img_paths : gset value := list_to_set (VText <$> image_list img_path) in
  img_recs ← image_recs;
  let new := img_paths ∖ img_recs in
  add_images uuid4 files img_path (omap text_of (iter_set new));;
  mret tt.

End Folder.

(** [w] has the columns of [w0] and as many rows, and every row holds
    the value it held in [w0] under every field in [keep]. *)
Definition agree_on (keep : string → Prop) (w0 w : world) : Prop :=
  columns (imgdata w) = columns (imgdata w0) ∧
  Forall2 (λ r0 r, ∀ f, keep f → get r f = get r0 f)
          (rows (imgdata w0)) (rows (imgdata w)).

(** The paths the store has a record for: the [str] values of the
    [image_path] column, in scan order. *)
Definition paths_of (t : table) : list string :=
  omap (λ r, text_of (get r "image_path")) (rows t).

(** [w] is [w0] with rows appended and possibly identifiers drawn. *)
Definition extends (w0 w : world) : Prop :=
  columns (imgdata w) = columns (imgdata w0) ∧
  (uuid_calls w0 ≤ uuid_calls w)%nat ∧
  ∃ new, rows (imgdata w) = rows (imgdata w0) ++ new.

(** The row [add_images] builds for [path]. *)
Definition ingested_row (cols : list string) (img : image) (path : string)
    (time iw ih : value) (o g : string) : row :=
  new_row cols
    (zip ["image_name"; "image_path"; "image_bytes"; "image_time";
          "image_w"; "image_h"; "image_hash"; "observation_id";
          "group_id"; "group_number"]
         [VText (img_name img); VText path; VInt (img_bytes img); time;
          iw; ih; VText (img_hash img); VText o; VText g; VInt 1]).

(** The columns [xlsx_to_sqlite] declares: the header's fields, then the
    registry's fields the header does not name. *)
Definition declared_fields (registry : list field_def) (ws : sheet)
  : list string :=
  header ws ++ filter (λ field, field ∉ header ws) (fd_name <$> registry).

(** The character [c] occurs in [s]. *)
Fixpoint occurs (c : ascii) (s : string) : bool :=
  match s with
  | String d s' => Ascii.eqb d c || occurs c s'
  | EmptyString => false
  end.

(** ** A folder and sheets to run the rest of the program on *)

Module Demo2.

(** [d.jpg] can be read but has no capture time. *)
Definition files (basedir path : string) : option image :=
  if bool_decide (basedir = "pics" ∧ path = "d.jpg")
  then Some (Image path 512 "0a1b2c3d"
               (list_to_map [("pixel_x_dimension", VInt 640);
                             ("pixel_y_dimension", VInt 480)]))
  else Demo.files basedir path.


Definition image_d : image :=
  Image "d.jpg" 512 "0a1b2c3d"
    (list_to_map [("pixel_x_dimension", VInt 640);
                  ("pixel_y_dimension", VInt 480)]).

Definition image_list (path : string) : list string :=
  if bool_decide (path = "pics") then ["a.jpg"; "b.jpg"] else [].

Definition iter_set (s : gset value) : list value := elements s.

(** A sheet with a column the registry does not know. *)
Definition book : sheet :=
  Sheet ["image_path"; "species"; "seen_by"]
        [[VText "a.jpg"; VText "fox"; VText "ann"];
         [VText "b.jpg"; VNull; VText "bob"]].

Definition twice : sheet := Sheet ["species"; "species"] [].

Definition untyped : list field_def :=
  [FieldDef "image_path" (Some "text") false; FieldDef "species" None true].

End Demo2.

(** * Properties *)

(** ** The monad and the statements *)

Lemma bind_returned {A B} (m : M A) (k : A → M B) w w' a :
  m w = (w', Returned a) → (m ≫= k) w = k a w'.
Proof. intros H. unfold mbind, M_bind, bind. by rewrite H. Qed.

Lemma bind_raised {A B} (m : M A) (k : A → M B) w w' e :
  m w = (w', Raised e) → (m ≫= k) w = (w', Raised e).
Proof. intros H. unfold mbind, M_bind, bind. by rewrite H. Qed.

Lemma sql_eq_text v x : sql_eq v (VText x) = true ↔ v = VText x.
Proof.
  destruct v; simpl; try (split; [discriminate|discriminate]).
  rewrite bool_decide_eq_true. done.
Qed.

Lemma sql_eq_text_false v x : sql_eq v (VText x) = false ↔ v ≠ VText x.
Proof.
  rewrite <- sql_eq_text. destruct (sql_eq v (VText x)); naive_solver.
Qed.

Lemma get_insert (r : row) f g v :
  get (<[f := v]> r) g = if decide (f = g) then v else get r g.
Proof.
  unfold get. rewrite lookup_insert. by destruct (decide (f = g)).
Qed.

Lemma assign_cons fv sets (r : row) :
  assign (fv :: sets) r = assign sets (<[fv.1 := fv.2]> r).
Proof. reflexivity. Qed.

Lemma get_assign_other sets (r : row) f :
  f ∉ sets.*1 → get (assign sets r) f = get r f.
Proof.
  revert r. induction sets as [|[g v] sets IH]; intros r Hf; [done|].
  rewrite fmap_cons in Hf. apply not_elem_of_cons in Hf as [Hne Hf].
  rewrite assign_cons, IH by done.
  rewrite get_insert. simpl in *. by case_decide.
Qed.

Lemma updates_of_cons fd reg (src dst : row) :
  updates_of (fd :: reg) src dst =
    ((if fd_copy fd && is_none (get dst (fd_name fd))
      then [(fd_name fd, get src (fd_name fd))] else [])
     ++ updates_of reg src dst)%list.
Proof.
  unfold updates_of. simpl.
  by destruct (fd_copy fd && is_none (get dst (fd_name fd))).
Qed.

Section GroupingFacts.

Variable registry : list field_def.

(** The value a field holds after one direction of the copy pass. *)
Lemma get_assign_updates (src dst r : row) f :
  get (assign (updates_of registry src dst) r) f =
    if copyable registry f && is_none (get dst f) then get src f else get r f.
Proof.
  revert r. induction registry as [|fd reg IH]; intros r; [done|].
  rewrite updates_of_cons. unfold copyable. simpl existsb.
  fold (copyable reg f).
  destruct (fd_copy fd) eqn:Hc; simpl andb.
  - destruct (is_none (get dst (fd_name fd))) eqn:Hn.
    + simpl app. rewrite assign_cons, IH. simpl. rewrite get_insert.
      case_bool_decide as Hf; simpl.
      * subst f. rewrite Hn, decide_True by done.
        by destruct (copyable reg (fd_name fd)).
      * by rewrite decide_False by done.
    + simpl app. rewrite IH. case_bool_decide as Hf; simpl; [|done].
      subst f. rewrite Hn. by rewrite !andb_false_r.
  - simpl app. rewrite IH. by rewrite andb_false_r.
Qed.

Lemma updates_of_names (src dst : row) f :
  f ∈ (updates_of registry src dst).*1 →
  copyable registry f = true ∧ get dst f = VNull.
Proof.
  induction registry as [|fd reg IH]; [by intros ?%elem_of_nil|].
  rewrite updates_of_cons, fmap_app, elem_of_app.
  unfold copyable. simpl existsb. fold (copyable reg f).
  intros [Hin|Hin].
  - destruct (fd_copy fd) eqn:Hc; simpl in Hin; [|by apply elem_of_nil in Hin].
    destruct (get dst (fd_name fd)) eqn:Hn; simpl in Hin;
      try by apply elem_of_nil in Hin.
    apply list_elem_of_singleton in Hin as ->.
    by rewrite bool_decide_eq_true_2.
  - destruct (IH Hin) as [-> ?]. by rewrite orb_true_r.
Qed.

Lemma updates_of_columns t (src dst : row) :
  schema_ok registry t = true →
  forallb (has_column t) (updates_of registry src dst).*1 = true.
Proof.
  unfold schema_ok. intros [_ H]%andb_prop. revert H.
  induction registry as [|fd reg IH]; [done|].
  intros H. simpl in H. apply andb_prop in H as [H1 H2].
  rewrite updates_of_cons, fmap_app, forallb_app, (IH H2), andb_true_r.
  destruct (fd_copy fd); [|done]. simpl in H1.
  destruct (is_none _); [|done]. simpl. by rewrite H1.
Qed.

(** *** What the [select] of [set_related] fetches *)

Lemma fetched_iff a b (r : row) :
  existsb (sql_eq (get r "observation_id")) [VText a; VText b] = true
  ↔ oid r = VText a ∨ oid r = VText b.
Proof.
  simpl. rewrite orb_false_r, orb_true_iff, !sql_eq_text. done.
Qed.

Lemma fetched_one a b (l : list row) :
  filter (λ r, oid r = VText a) l = [] →
  fetched a b l = filter (λ r, oid r = VText b) l.
Proof.
  unfold fetched. induction l as [|r l IH]; [done|].
  rewrite !filter_cons. destruct (decide (oid r = VText a)) as [Ha|Ha]; [done|].
  intros Hl. specialize (IH Hl).
  destruct (decide (oid r = VText b)) as [Hb|Hb].
  - rewrite decide_True by (apply fetched_iff; by right). by rewrite IH.
  - rewrite decide_False by (rewrite fetched_iff; tauto). done.
Qed.

Lemma fetched_comm a b (l : list row) : fetched a b l = fetched b a l.
Proof.
  unfold fetched. apply list_filter_iff. intros r.
  rewrite !fetched_iff. unfold oid. tauto.
Qed.

Lemma fetched_pair a b (A B : row) (l : list row) :
  a ≠ b →
  filter (λ r, oid r = VText a) l = [A] →
  filter (λ r, oid r = VText b) l = [B] →
  fetched a b l = [A; B] ∨ fetched a b l = [B; A].
Proof.
  intros Hab. induction l as [|r l IH]; [done|].
  rewrite !filter_cons.
  destruct (decide (oid r = VText a)) as [Ha|Ha];
    destruct (decide (oid r = VText b)) as [Hb|Hb]; try congruence.
  - intros [= -> Hl] HB. left.
    unfold fetched. rewrite filter_cons_True by (apply fetched_iff; by left).
    f_equal. fold (fetched a b l). by rewrite fetched_one.
  - intros HA [= -> Hl]. right.
    unfold fetched. rewrite filter_cons_True by (apply fetched_iff; by right).
    f_equal. fold (fetched a b l). by rewrite fetched_comm, fetched_one.
  - intros HA HB. unfold fetched.
    rewrite filter_cons_False by (rewrite fetched_iff; tauto).
    by apply IH.
Qed.

(** *** The [update] statements *)

Lemma update_where_ok sets p w :
  has_column (imgdata w) "observation_id" = true →
  forallb (has_column (imgdata w)) sets.*1 = true →
  update_where sets "observation_id" p w = (updated sets p w, Returned tt).
Proof.
  intros H1 H2. unfold update_where. simpl forallb. by rewrite H1, H2.
Qed.

Lemma updated_nil p w : updated [] p w = w.
Proof.
  destruct w as [[cols rs] n]. unfold updated. simpl. do 2 f_equal.
  rewrite <- (list_fmap_id rs) at 2. apply list_fmap_ext.
  intros i r _. by destruct (sql_eq (oid r) p).
Qed.

Lemma schema_ok_updated sets p w :
  schema_ok registry (imgdata (updated sets p w)) = schema_ok registry (imgdata w).
Proof. reflexivity. Qed.

(** One direction of the copy pass, the guard [if updates:] included. *)
Lemma copy_direction_ok (src dst : row) w :
  schema_ok registry (imgdata w) = true →
  match updates_of registry src dst with
  | [] => mret tt
  | _ => update_where (updates_of registry src dst) "observation_id" (oid dst)
  end w = (updated (updates_of registry src dst) (oid dst) w, Returned tt).
Proof.
  intros Hs. destruct (updates_of registry src dst) as [|u us] eqn:Hu.
  - by rewrite updated_nil.
  - rewrite <- Hu. apply update_where_ok.
    + unfold schema_ok in Hs. by apply andb_prop in Hs as [[? ?]%andb_prop ?].
    + by apply updates_of_columns.
Qed.

Lemma copy_pass_ok (A B : row) w :
  schema_ok registry (imgdata w) = true →
  copy_pass registry [A; B] w =
    (updated (updates_of registry B A) (oid A)
       (updated (updates_of registry A B) (oid B) w), Returned tt).
Proof.
  intros Hs. unfold copy_pass. simpl for_each.
  erewrite bind_returned; last first.
  { unfold index. simpl. erewrite bind_returned by reflexivity.
    erewrite bind_returned by reflexivity. by apply copy_direction_ok. }
  erewrite bind_returned; last first.
  { unfold index. simpl. erewrite bind_returned by reflexivity.
    erewrite bind_returned by reflexivity. by apply copy_direction_ok. }
  reflexivity.
Qed.

(** *** The whole of [set_related] on two distinct records *)

Lemma records_of_oid t x (r : row) :
  r ∈ records_of t x → oid r = VText x ∧ r ∈ rows t.
Proof. unfold records_of. by rewrite list_elem_of_filter. Qed.

Lemma records_of_unique t x (A r : row) :
  records_of t x = [A] → r ∈ rows t → oid r = VText x → r = A.
Proof.
  intros HA Hr Hx. apply list_elem_of_singleton. rewrite <- HA.
  unfold records_of. by rewrite list_elem_of_filter.
Qed.

Lemma oid_merged_to (A B : row) b :
  oid B = VText b → oid (merged_to registry A B) = VText b.
Proof.
  intros HB. unfold merged_to, oid. rewrite get_assign_updates.
  fold (oid B). by rewrite HB, andb_false_r.
Qed.

Lemma oid_merged_from (A B : row) a :
  oid A = VText a → oid (merged_from registry A B) = VText a.
Proof.
  intros HA. unfold merged_from, oid. rewrite get_assign_updates.
  fold (oid A). rewrite HA, andb_false_r. by rewrite get_insert.
Qed.

Lemma set_related_merges w a b (A B : row) :
  schema_ok registry (imgdata w) = true →
  tuple_fields_ok (imgdata w) = true → a ≠ b →
  records_of (imgdata w) a = [A] → records_of (imgdata w) b = [B] →
  set_related registry a b w =
    (World (Table (columns (imgdata w))
              (merge_rows registry a b A B <$> rows (imgdata w)))
           (uuid_calls w), Returned tt).
Proof.
  intros Hs Hn Hab HA HB.
  assert (oid A = VText a) as HoA.
  { apply (records_of_oid (imgdata w)). rewrite HA. by left. }
  assert (oid B = VText b) as HoB.
  { apply (records_of_oid (imgdata w)). rewrite HB. by left. }
  pose proof Hs as Hs'. unfold schema_ok in Hs'.
  apply andb_prop in Hs' as [[Hc1 Hc2]%andb_prop _].
  unfold set_related.
  erewrite bind_returned; last first.
  { unfold select_in. rewrite Hc1. reflexivity. }
  fold (fetched a b (rows (imgdata w))).
  erewrite bind_returned; last first.
  { unfold named_tuples. fold (tuple_fields_ok (imgdata w)). rewrite Hn.
    reflexivity. }
  assert (∃ first, fetched a b (rows (imgdata w)) !! 0%nat = Some first ∧
            (if py_ne (get first "observation_id") a
             then reverse (fetched a b (rows (imgdata w)))
             else fetched a b (rows (imgdata w))) = [A; B]) as (first & H0 & Hobs).
  { destruct (fetched_pair a b A B (rows (imgdata w)) Hab HA HB) as [-> | ->].
    - exists A. split; [done|]. fold (oid A). rewrite HoA.
      unfold py_ne. by rewrite bool_decide_eq_true_2.
    - exists B. split; [done|]. fold (oid B). rewrite HoB.
      unfold py_ne. rewrite bool_decide_eq_false_2 by congruence. done. }
  erewrite bind_returned; last first.
  { unfold index. rewrite H0. reflexivity. }
  rewrite Hobs.
  erewrite bind_returned by reflexivity.
  erewrite bind_returned; last first.
  { unfold attribute. rewrite Hc2. reflexivity. }
  erewrite bind_returned by reflexivity.
  erewrite bind_returned; last first.
  { apply update_where_ok; [done|]. simpl. by rewrite Hc2. }
  rewrite copy_pass_ok by done.
  f_equal. unfold updated. simpl. f_equal. f_equal.
  rewrite <- !list_fmap_compose. apply list_fmap_ext.
  intros i r Hr%list_elem_of_lookup_2. simpl.
  fold (oid A) (oid B) (gid B). rewrite HoA, HoB. unfold merge_rows.
  destruct (decide (oid r = VText a)) as [Ha|Ha].
  - assert (r = A) as -> by eauto using records_of_unique.
    rewrite (proj2 (sql_eq_text _ _) HoA).
    change (assign [("group_id", gid B)] A) with (<["group_id" := gid B]> A).
    assert (oid (<["group_id" := gid B]> A) = VText a) as Ho1.
    { unfold oid. by rewrite get_insert. }
    rewrite (proj2 (sql_eq_text_false _ b)) by congruence.
    by rewrite (proj2 (sql_eq_text _ _) Ho1).
  - rewrite (proj2 (sql_eq_text_false (oid r) a)) by done.
    destruct (decide (oid r = VText b)) as [Hb|Hb].
    + assert (r = B) as -> by eauto using records_of_unique.
      rewrite (proj2 (sql_eq_text _ _) HoB).
      fold (merged_to registry A B).
      rewrite (proj2 (sql_eq_text_false _ a)); [done|].
      rewrite (oid_merged_to A B b) by done. congruence.
    + rewrite (proj2 (sql_eq_text_false (oid r) b)) by done.
      by rewrite (proj2 (sql_eq_text_false (oid r) a)).
Qed.

(** *** Field values after the merge *)

Lemma get_merged_from (A B : row) f :
  get (merged_from registry A B) f =
    if copyable registry f && is_none (get A f) then get B f
    else if decide ("group_id" = f) then gid B else get A f.
Proof. unfold merged_from. by rewrite get_assign_updates, get_insert. Qed.

Lemma get_merged_to (A B : row) f :
  get (merged_to registry A B) f =
    if copyable registry f && is_none (get B f) then get A f else get B f.
Proof. unfold merged_to. by rewrite get_assign_updates. Qed.

Lemma gid_merged_from (A B : row) : gid (merged_from registry A B) = gid B.
Proof.
  unfold gid at 1. rewrite get_merged_from, decide_True by done.
  by destruct (_ && _).
Qed.

Lemma is_none_true v : is_none v = true ↔ v = VNull.
Proof. by destruct v. Qed.

Lemma is_none_false v : is_none v = false ↔ v ≠ VNull.
Proof. by destruct v. Qed.

Lemma oid_merge_rows a b (A B r : row) :
  oid A = VText a → oid B = VText b →
  oid (merge_rows registry a b A B r) = oid r.
Proof.
  intros HA HB. unfold merge_rows.
  destruct (decide (oid r = VText a)) as [Ha|Ha].
  - by rewrite (oid_merged_from A B a), Ha.
  - destruct (decide (oid r = VText b)) as [Hb|Hb]; [|done].
    by rewrite (oid_merged_to A B b), Hb.
Qed.

Lemma filter_oid_fmap (g : row → row) x (l : list row) :
  (∀ r, oid (g r) = oid r) →
  filter (λ r, oid r = VText x) (g <$> l) = g <$> filter (λ r, oid r = VText x) l.
Proof.
  intros Hg. induction l as [|r l IH]; [done|].
  rewrite fmap_cons, !filter_cons, Hg, IH.
  by destruct (decide (oid r = VText x)).
Qed.

(** The store after the merge holds exactly the two merged records
    under the two identifiers, and every other record as it was. *)
Lemma records_of_merged t a b (A B : row) :
  a ≠ b → records_of t a = [A] → records_of t b = [B] →
  let t' := Table (columns t) (merge_rows registry a b A B <$> rows t) in
  records_of t' a = [merged_from registry A B] ∧
  records_of t' b = [merged_to registry A B] ∧
  ∀ x, x ≠ a → x ≠ b → records_of t' x = records_of t x.
Proof.
  intros Hab HA HB.
  assert (oid A = VText a) as HoA.
  { apply (records_of_oid t). rewrite HA. by left. }
  assert (oid B = VText b) as HoB.
  { apply (records_of_oid t). rewrite HB. by left. }
  simpl. unfold records_of in *. simpl.
  rewrite !filter_oid_fmap by eauto using oid_merge_rows.
  rewrite HA, HB. simpl. unfold merge_rows at 1 2.
  rewrite HoA, HoB, decide_True, decide_False, decide_True by congruence.
  split_and!; [done..|].
  intros x Hxa Hxb. rewrite filter_oid_fmap by eauto using oid_merge_rows.
  rewrite <- (list_fmap_id (filter _ (rows t))) at 2.
  apply list_fmap_ext. intros i r Hr%list_elem_of_lookup_2.
  apply list_elem_of_filter in Hr as [Hr _]. unfold merge_rows.
  rewrite Hr, !decide_False by congruence. done.
Qed.

Lemma set_related_result w a b (A B : row) :
  schema_ok registry (imgdata w) = true →
  tuple_fields_ok (imgdata w) = true → a ≠ b →
  records_of (imgdata w) a = [A] → records_of (imgdata w) b = [B] →
  ∃ w', set_related registry a b w = (w', Returned tt) ∧
    records_of (imgdata w') a = [merged_from registry A B] ∧
    records_of (imgdata w') b = [merged_to registry A B] ∧
    (∀ x, x ≠ a → x ≠ b →
       records_of (imgdata w') x = records_of (imgdata w) x) ∧
    schema_ok registry (imgdata w') = true ∧
    tuple_fields_ok (imgdata w') = true.
Proof.
  intros Hs Hn Hab HA HB. eexists. split; [by apply set_related_merges|].
  destruct (records_of_merged (imgdata w) a b A B Hab HA HB) as (?&?&?).
  by split_and!.
Qed.

Ltac field_cases :=
  repeat match goal with
    | |- context [copyable registry ?f] =>
        destruct (copyable registry f) eqn:?
    | |- context [is_none ?v] => destruct (is_none v) eqn:?
    | H : is_none _ = true |- _ => apply is_none_true in H
    | H : is_none _ = false |- _ => apply is_none_false in H
    | |- context [decide (?x = ?y)] => destruct (decide (x = y))
    end; simpl in *; try congruence.

(** C1. For two distinct records [A] and [B] of the store, in a table
    whose column names [namedtuple] accepts,
    [set_related] succeeds and its copy pass works in both directions:
    a copy-on-merge field that is null on one record takes the other
    record's value; a non-null value is never overwritten by the copy
    pass; a field that is not copy-on-merge is never copied.  The one
    field written outside the copy pass is [A]'s [group_id], which the
    preceding statement sets (C2); every other record is untouched. *)
Theorem set_related_copy_pass w a b (A B : row) :
  schema_ok registry (imgdata w) = true →
  tuple_fields_ok (imgdata w) = true → a ≠ b →
  records_of (imgdata w) a = [A] → records_of (imgdata w) b = [B] →
  ∃ w' A' B',
    set_related registry a b w = (w', Returned tt) ∧
    records_of (imgdata w') a = [A'] ∧ records_of (imgdata w') b = [B'] ∧
    (∀ x, x ≠ a → x ≠ b →
       records_of (imgdata w') x = records_of (imgdata w) x) ∧
    ∀ f,
      (copyable registry f = true → get A f = VNull → get A' f = get B f) ∧
      (copyable registry f = true → get B f = VNull → get B' f = get A f) ∧
      (f ≠ "group_id" → get A f ≠ VNull → get A' f = get A f) ∧
      (get B f ≠ VNull → get B' f = get B f) ∧
      (copyable registry f = false → f ≠ "group_id" → get A' f = get A f) ∧
      (copyable registry f = false → get B' f = get B f).
Proof.
  intros Hs Hn Hab HA HB.
  destruct (set_related_result w a b A B Hs Hn Hab HA HB)
    as (w' & Hr & HA' & HB' & Ho & _).
  exists w', (merged_from registry A B), (merged_to registry A B).
  split_and!; try done.
  intros f. rewrite get_merged_from, get_merged_to.
  split_and!; intros; field_cases.
Qed.

(** C2. For two distinct records [A] and [B] of the store, in a table
    whose column names [namedtuple] accepts, [set_related] leaves [A] with the [group_id] [B] had before the
    call and leaves [B]'s [group_id] as it was, whichever of the two
    rows the [select] returns first.  ([B]'s [group_id] is outside the
    copy pass: it is not a copy-on-merge field, or it is not null.) *)
Theorem set_related_group_id w a b (A B : row) :
  schema_ok registry (imgdata w) = true →
  tuple_fields_ok (imgdata w) = true → a ≠ b →
  records_of (imgdata w) a = [A] → records_of (imgdata w) b = [B] →
  copyable registry "group_id" = false ∨ gid B ≠ VNull →
  ∃ w' A' B',
    set_related registry a b w = (w', Returned tt) ∧
    records_of (imgdata w') a = [A'] ∧ records_of (imgdata w') b = [B'] ∧
    gid A' = gid B ∧ gid B' = gid B.
Proof.
  intros Hs Hn Hab HA HB Hg.
  destruct (set_related_result w a b A B Hs Hn Hab HA HB)
    as (w' & Hr & HA' & HB' & _).
  exists w', (merged_from registry A B), (merged_to registry A B).
  split_and!; try done; [apply gid_merged_from|].
  unfold gid in *. rewrite get_merged_to.
  destruct Hg as [-> | Hg]; [done|].
  apply is_none_false in Hg. by rewrite Hg, andb_false_r.
Qed.

(** C5. In a table whose column names [namedtuple] accepts, with a
    copy-on-merge field [F] (other than [group_id]) set on
    [A] and null on [B], both [set_related a b] and [set_related b a],
    run from the same state, leave [A]'s value for [F] on both records;
    the two final states agree on every field except [group_id], which
    converges on [B]'s after the first call and on [A]'s after the
    second. *)
Theorem set_related_commutes_per_field w a b (A B : row) F :
  schema_ok registry (imgdata w) = true →
  tuple_fields_ok (imgdata w) = true → a ≠ b →
  records_of (imgdata w) a = [A] → records_of (imgdata w) b = [B] →
  copyable registry F = true → F ≠ "group_id" →
  get A F ≠ VNull → get B F = VNull →
  ∃ w1 A1 B1 w2 A2 B2,
    set_related registry a b w = (w1, Returned tt) ∧
    records_of (imgdata w1) a = [A1] ∧ records_of (imgdata w1) b = [B1] ∧
    set_related registry b a w = (w2, Returned tt) ∧
    records_of (imgdata w2) a = [A2] ∧ records_of (imgdata w2) b = [B2] ∧
    get A1 F = get A F ∧ get B1 F = get A F ∧
    get A2 F = get A F ∧ get B2 F = get A F ∧
    (∀ f, f ≠ "group_id" → get A1 f = get A2 f ∧ get B1 f = get B2 f) ∧
    gid A1 = gid B ∧ gid B2 = gid A.
Proof.
  intros Hs Hn Hab HA HB HF Hg HAF HBF.
  destruct (set_related_result w a b A B Hs Hn Hab HA HB)
    as (w1 & Hr1 & HA1 & HB1 & _).
  assert (b ≠ a) as Hba by congruence.
  destruct (set_related_result w b a B A Hs Hn Hba HB HA)
    as (w2 & Hr2 & HB2 & HA2 & _).
  exists w1, (merged_from registry A B), (merged_to registry A B),
         w2, (merged_to registry B A), (merged_from registry B A).
  split_and!; try done; try apply gid_merged_from;
    try intros f Hf; rewrite ?get_merged_from, ?get_merged_to;
    try split; field_cases.
Qed.

(** A second merge of two distinct records changes no field value. *)
Lemma set_related_twice w a b (A B : row) :
  schema_ok registry (imgdata w) = true →
  tuple_fields_ok (imgdata w) = true → a ≠ b →
  records_of (imgdata w) a = [A] → records_of (imgdata w) b = [B] →
  copyable registry "group_id" = false ∨ gid B ≠ VNull →
  ∃ w1 w2,
    set_related registry a b w = (w1, Returned tt) ∧
    set_related registry a b w1 = (w2, Returned tt) ∧
    columns (imgdata w2) = columns (imgdata w1) ∧
    Forall2 same_fields (rows (imgdata w1)) (rows (imgdata w2)).
Proof.
  intros Hs Hn Hab HA HB Hg.
  destruct (set_related_result w a b A B Hs Hn Hab HA HB)
    as (w1 & Hr1 & HA1 & HB1 & _ & Hs1 & Hn1).
  exists w1. eexists. split; [done|].
  split; [by apply set_related_merges|]. split; [done|]. simpl.
  apply Forall2_fmap_r, Forall_Forall2_diag, Forall_forall.
  intros r Hr. simpl. unfold merge_rows.
  destruct (decide (oid r = VText a)) as [Ha|Ha];
    [|destruct (decide (oid r = VText b)) as [Hb|Hb]; [|done]].
  - assert (r = merged_from registry A B) as ->
      by eauto using records_of_unique.
    intros f. rewrite !get_merged_from, !get_merged_to.
    unfold gid in *. rewrite !get_merged_to.
    destruct Hg as [Hg|Hg]; [|apply is_none_false in Hg];
      try rewrite Hg; field_cases.
  - assert (r = merged_to registry A B) as ->
      by eauto using records_of_unique.
    intros f. rewrite !get_merged_to, !get_merged_from.
    unfold gid in *. field_cases.
Qed.

(** *** Fewer than two fetched records *)

Lemma fetched_same a (l : list row) :
  fetched a a l = filter (λ r, oid r = VText a) l.
Proof.
  unfold fetched. apply list_filter_iff. intros r.
  rewrite fetched_iff. tauto.
Qed.

(** A table with a column name that [namedtuple] refuses: the call
    raises [ValueError] once the records are fetched, before any
    [update]. *)
Lemma set_related_bad_fields w a b :
  has_column (imgdata w) "observation_id" = true →
  tuple_fields_ok (imgdata w) = false →
  set_related registry a b w = (w, Raised ValueError).
Proof.
  intros Hc Hn. unfold set_related.
  erewrite bind_returned; last first.
  { unfold select_in. rewrite Hc. reflexivity. }
  erewrite bind_raised; [done|].
  unfold named_tuples. fold (tuple_fields_ok (imgdata w)). by rewrite Hn.
Qed.

Lemma set_related_short w a b :
  (List.length (fetched a b (rows (imgdata w))) ≤ 1)%nat →
  (set_related registry a b w).1 = w ∧
  (has_column (imgdata w) "observation_id" = true →
   tuple_fields_ok (imgdata w) = true →
   set_related registry a b w = (w, Raised IndexError)).
Proof.
  intros Hlen.
  destruct (has_column (imgdata w) "observation_id") eqn:Hc.
  - destruct (tuple_fields_ok (imgdata w)) eqn:Hn.
    + enough (set_related registry a b w = (w, Raised IndexError)) as ->
        by done.
      unfold set_related.
      erewrite bind_returned; last first.
      { unfold select_in. rewrite Hc. reflexivity. }
      fold (fetched a b (rows (imgdata w))).
      erewrite bind_returned; last first.
      { unfold named_tuples. fold (tuple_fields_ok (imgdata w)). rewrite Hn.
        reflexivity. }
      destruct (fetched a b (rows (imgdata w))) as [|x [|y l]];
        [done| |simpl in Hlen; lia].
      erewrite bind_returned by reflexivity.
      assert ((if py_ne (get x "observation_id") a then reverse [x] else [x])
              = [x]) as -> by by destruct (py_ne _ _).
      reflexivity.
    + rewrite set_related_bad_fields by done. done.
  - split; [|done]. unfold set_related.
    erewrite bind_raised; [done|]. unfold select_in. by rewrite Hc.
Qed.

(** Merging a record with itself never reaches an [update]: the
    [select] fetches the one record once and [obs[1]] is out of range. *)
Lemma set_related_self_raises w a (A : row) :
  has_column (imgdata w) "observation_id" = true →
  tuple_fields_ok (imgdata w) = true →
  records_of (imgdata w) a = [A] →
  set_related registry a a w = (w, Raised IndexError).
Proof.
  intros Hc Hn HA. apply set_related_short; [|done..].
  rewrite fetched_same. fold (records_of (imgdata w) a). by rewrite HA.
Qed.

(** C6. For two identifiers present in the store, a second
    [set_related a b] right after the first ends as the first did and
    leaves every row of the table with the field values the first call
    left.  (As in C2, [B]'s [group_id] is outside the copy pass.) *)
Theorem set_related_idempotent w a b (A B : row) :
  schema_ok registry (imgdata w) = true →
  records_of (imgdata w) a = [A] → records_of (imgdata w) b = [B] →
  copyable registry "group_id" = false ∨ gid B ≠ VNull →
  let w1 := (set_related registry a b w).1 in
  let w2 := (set_related registry a b w1).1 in
  (set_related registry a b w1).2 = (set_related registry a b w).2 ∧
  columns (imgdata w2) = columns (imgdata w1) ∧
  Forall2 same_fields (rows (imgdata w1)) (rows (imgdata w2)).
Proof.
  intros Hs HA HB Hg. destruct (decide (a = b)) as [->|Hab].
  - assert ((set_related registry b b w).1 = w) as Hw.
    { apply set_related_short. rewrite fetched_same.
      fold (records_of (imgdata w) b). by rewrite HB. }
    simpl. rewrite !Hw. split_and!; [done..|].
    by apply Forall_Forall2_diag, Forall_forall.
  - destruct (tuple_fields_ok (imgdata w)) eqn:Hn.
    + destruct (set_related_twice w a b A B) as (w1 & w2 & H1 & H2 & Hc & Hf);
        [done..|].
      simpl. rewrite H1. simpl. rewrite H2. by split_and!.
    + assert (set_related registry a b w = (w, Raised ValueError)) as Hbad.
      { apply set_related_bad_fields; [|done]. unfold schema_ok in Hs.
        by apply andb_prop in Hs as [[? ?]%andb_prop ?]. }
      simpl. rewrite !Hbad. simpl. rewrite Hbad. split_and!; [done..|].
      by apply Forall_Forall2_diag, Forall_forall.
Qed.

(** C4. When one of the two identifiers matches no record (and the
    other at most one), [set_related] fails at once, with the
    [IndexError] of indexing the fetched records, before any [update]:
    the store is as it was.  (On a table with a column name that
    [namedtuple] refuses the call fails one step earlier, with
    [ValueError].) *)
Theorem set_related_unknown_id w a b :
  has_column (imgdata w) "observation_id" = true →
  tuple_fields_ok (imgdata w) = true →
  (List.length (records_of (imgdata w) a) ≤ 1)%nat →
  (List.length (records_of (imgdata w) b) ≤ 1)%nat →
  records_of (imgdata w) a = [] ∨ records_of (imgdata w) b = [] →
  set_related registry a b w = (w, Raised IndexError).
Proof.
  intros Hc Hn Ha Hb Hnone. apply set_related_short; [|done..].
  destruct Hnone as [H|H].
  - by rewrite fetched_one.
  - by rewrite fetched_comm, fetched_one.
Qed.

(** C3, as the code has it. Merging a record with itself leaves the
    store as it was.  Merging two distinct records that already share a
    [group_id], in a table whose column names [namedtuple] accepts,
    succeeds and leaves both [group_id]s and every non-null value as
    they were; a null field keeps being null unless it is copy-on-merge,
    in which case it takes the other record's value. *)
Theorem set_related_same_group w a (A : row) :
  schema_ok registry (imgdata w) = true →
  records_of (imgdata w) a = [A] →
  (set_related registry a a w).1 = w ∧
  ∀ b (B : row),
    tuple_fields_ok (imgdata w) = true →
    a ≠ b → records_of (imgdata w) b = [B] → gid A = gid B →
    ∃ w' A' B',
      set_related registry a b w = (w', Returned tt) ∧
      records_of (imgdata w') a = [A'] ∧ records_of (imgdata w') b = [B'] ∧
      (∀ x, x ≠ a → x ≠ b →
         records_of (imgdata w') x = records_of (imgdata w) x) ∧
      gid A' = gid A ∧ gid B' = gid B ∧
      ∀ f,
        (get A f ≠ VNull → get A' f = get A f) ∧
        (get B f ≠ VNull → get B' f = get B f) ∧
        (get A f = VNull →
           get A' f = if copyable registry f then get B f else VNull) ∧
        (get B f = VNull →
           get B' f = if copyable registry f then get A f else VNull).
Proof.
  intros Hs HA. split.
  - apply set_related_short. rewrite fetched_same.
    fold (records_of (imgdata w) a). by rewrite HA.
  - intros b B Hn Hab HB Hg.
    destruct (set_related_result w a b A B Hs Hn Hab HA HB)
      as (w' & Hr & HA' & HB' & Ho & _).
    exists w', (merged_from registry A B), (merged_to registry A B).
    split_and!; try done.
    + by rewrite gid_merged_from.
    + unfold gid in *. rewrite get_merged_to. field_cases.
    + intros f. rewrite get_merged_from, get_merged_to. unfold gid in *.
      split_and!; intros; field_cases.
Qed.

End GroupingFacts.

(** ** Ungrouping and ingestion *)

Section IngestionFacts.

Variable uuid4 : nat → string.
Variable files : string → string → option image.

Lemma updated_no_match sets x w :
  records_of (imgdata w) x = [] →
  imgdata (updated sets (VText x) w) = imgdata w.
Proof.
  intros Hx. destruct w as [[cols rs] n]. unfold updated. simpl in *.
  f_equal. rewrite <- (list_fmap_id rs) at 2. apply list_fmap_ext.
  intros i r Hr%list_elem_of_lookup_2. simpl.
  rewrite (proj2 (sql_eq_text_false (oid r) x)); [done|].
  intros Ho. enough (r ∈ records_of (Table cols rs) x) as Hin
    by (rewrite Hx in Hin; by apply elem_of_nil in Hin).
  unfold records_of. by rewrite list_elem_of_filter.
Qed.

(** C10. [unset_related] with an identifier that matches no record
    raises nothing and leaves the table as it was: its [update] matches
    no row.  Only an identifier is drawn from [uuid4()]. *)
Theorem unset_related_unknown_id w a :
  has_column (imgdata w) "observation_id" = true →
  has_column (imgdata w) "group_id" = true →
  records_of (imgdata w) a = [] →
  ∃ w', unset_related uuid4 a w = (w', Returned tt) ∧
        imgdata w' = imgdata w.
Proof.
  intros Hc1 Hc2 Ha. eexists. split.
  - unfold unset_related. erewrite bind_returned by reflexivity.
    apply update_where_ok; simpl; [done|by rewrite Hc2].
  - by rewrite updated_no_match.
Qed.

(** C9 (as the code has it). [add_images] never returns a count: when
    it returns at all, it returns [None]. *)
Theorem add_images_returns_none basedir paths w :
  (add_images uuid4 files basedir paths w).2 = Returned None ∨
  ∃ e, (add_images uuid4 files basedir paths w).2 = Raised e.
Proof.
  unfold add_images, mbind, M_bind, bind.
  destruct (for_each paths _ w) as [w' [[]|e]]; simpl; eauto.
Qed.

End IngestionFacts.

(** ** Export to the spreadsheet and import from it *)

Lemma lookup_new_row cols given f :
  new_row cols given !! f =
    if bool_decide (f ∈ cols)
    then Some (default VNull ((list_to_map given : gmap string value) !! f))
    else None.
Proof.
  unfold new_row. induction cols as [|c cols IH].
  - rewrite bool_decide_eq_false_2 by apply not_elem_of_nil. done.
  - rewrite fmap_cons, list_to_map_cons, lookup_insert, IH.
    destruct (decide (c = f)) as [->|Hne].
    + rewrite bool_decide_eq_true_2 by left. done.
    + destruct (bool_decide (f ∈ cols)) eqn:Hf.
      * apply bool_decide_eq_true in Hf.
        rewrite bool_decide_eq_true_2 by (by right). done.
      * apply bool_decide_eq_false in Hf.
        rewrite bool_decide_eq_false_2; [done|].
        intros [?|?]%elem_of_cons; congruence.
Qed.



Section SyncFacts.

Variable registry : list field_def.

Lemma for_each_insert_row fields cols (l : list (list value)) rs n :
  forallb (has_column (Table cols rs)) fields = true →
  Forall (λ vals, List.length vals = List.length fields) l →
  for_each l (λ vals, insert_row fields vals) (World (Table cols rs) n) =
    (World (Table cols (rs ++ ((λ vals, new_row cols.*1 (zip fields vals)) <$> l))) n,
     Returned tt).
Proof.
  intros Hc Hl. revert rs Hc. induction Hl as [|vals l Hv Hl IH]; intros rs Hc.
  - simpl. by rewrite app_nil_r.
  - simpl for_each. erewrite bind_returned; last first.
    { unfold insert_row. cbn [imgdata columns rows uuid_calls].
      rewrite Hc, Hv, Nat.eqb_refl. reflexivity. }
    rewrite IH by done. by rewrite <- app_assoc.
Qed.

Lemma field_types_names ft :
  field_types registry = Some ft → ft.*1 = fd_name <$> registry.
Proof.
  unfold field_types. rewrite mapM_Some. intros H.
  induction H as [|fd [k ty] reg ft Hfd H IH]; [done|].
  rewrite !fmap_cons, IH. f_equal.
  destruct (fd_type fd); simpl in *; congruence.
Qed.


Lemma strip_rows_kept (l : list (list value)) :
  match last l with
  | Some r => negb (forallb is_none r)
  | None => true
  end = true →
  strip_rows l = l.
Proof.
  induction l as [|r l IH]; [done|].
  destruct l as [|r' l].
  - simpl. intros Hr. by destruct (forallb is_none r).
  - intros Hl. change (last (r :: r' :: l)) with (last (r' :: l)) in Hl.
    cbn [strip_rows]. cbn [strip_rows] in IH. by rewrite (IH Hl).
Qed.

Lemma reloaded_cell_kept v : kept_by_workbook v = true → reloaded_cell v = v.
Proof. by destruct v as [| |[|c s]]. Qed.

(** A sheet whose cells and last row the file keeps is saved as it is. *)
Lemma saved_kept ws : kept_sheet ws = true → saved ws = ws.
Proof.
  unfold kept_sheet, saved. intros [Hcells Hlast]%andb_prop.
  rewrite (strip_rows_kept _ Hlast). destruct ws as [h d]. simpl in *.
  f_equal. rewrite <- (list_fmap_id d) at 2.
  apply list_fmap_ext. intros i r Hr%list_elem_of_lookup_2.
  rewrite <- (list_fmap_id r) at 2.
  apply list_fmap_ext. intros j v Hv%list_elem_of_lookup_2.
  apply reloaded_cell_kept.
  rewrite forallb_forall in Hcells.
  specialize (Hcells r (proj1 (list_elem_of_In _ _) Hr)).
  rewrite forallb_forall in Hcells.
  by apply Hcells, list_elem_of_In.
Qed.

Lemma sqlite_to_xlsx_unfold ws :
  header ws ≠ [] →
  sqlite_to_xlsx ws =
    (res ← select_fields (header ws); mret (saved (Sheet (header ws) res))).
Proof. intros Hne. unfold sqlite_to_xlsx. by destruct (header ws). Qed.

Lemma xlsx_to_sqlite_header ws ft :
  field_types registry = Some ft → header ws ≠ [] →
  xlsx_to_sqlite registry ws =
    match create_table
            (((λ field, (field, type_of ft field)) <$> header ws) ++
             ((λ field, (field, type_of ft field))
                <$> filter (λ field, field ∉ header ws) ft.*1)) with
    | Raised e => Raised e
    | Returned t =>
        match for_each (data ws) (λ row, insert_row (header ws) row)
                (World t 0) with
        | (w, Returned _) => Returned (imgdata w)
        | (_, Raised e) => Raised e
        end
    end.
Proof.
  intros Hft Hne. unfold xlsx_to_sqlite. rewrite Hft.
  by destruct (header ws).
Qed.


End SyncFacts.

(** ** Records singled out by a key *)



(** ** A small program logic for invariants *)

Lemma triple_ret {A} (P : world → Prop) (a : A) (Q : A → world → Prop) E :
  (∀ w, P w → Q a w) → triple P (mret a) Q E.
Proof. intros H w Hw. by apply H. Qed.

Lemma triple_raise {A} (P : world → Prop) e (Q : A → world → Prop)
    (E : world → Prop) :
  (∀ w, P w → E w) → triple P (raise e) Q E.
Proof. intros H w Hw. by apply H. Qed.

Lemma triple_bind {A B} P (m : M A) (k : A → M B) Q R E :
  triple P m Q E → (∀ a, triple (Q a) (k a) R E) → triple P (m ≫= k) R E.
Proof.
  intros Hm Hk w Hw. specialize (Hm w Hw).
  unfold mbind, M_bind, bind. destruct (m w) as [w' [a|e]]; [|done].
  by apply Hk.
Qed.

Lemma triple_weaken {A} (P P' : world → Prop) (m : M A)
    (Q Q' : A → world → Prop) (E E' : world → Prop) :
  triple P' m Q' E' →
  (∀ w, P w → P' w) → (∀ a w, Q' a w → Q a w) → (∀ w, E' w → E w) →
  triple P m Q E.
Proof.
  intros Hm HP HQ HE w Hw. specialize (Hm w (HP w Hw)).
  destruct (m w) as [w' [a|e]]; auto.
Qed.

Lemma triple_for_each {A} (I : world → Prop) (xs : list A) body :
  (∀ x, x ∈ xs → triple I (body x) (λ _, I) I) →
  triple I (for_each xs body) (λ _, I) I.
Proof.
  induction xs as [|x xs IH]; intros Hbody.
  - by apply triple_ret.
  - simpl. eapply triple_bind.
    + apply Hbody. by left.
    + intros u. apply IH. intros y Hy. apply Hbody. by right.
Qed.

Lemma triple_index {A} (P : world → Prop) (l : list A) i :
  triple P (index l i) (λ x w, P w ∧ x ∈ l) P.
Proof.
  intros w Hw. unfold index. destruct (l !! i) as [x|] eqn:Hx; simpl; [|done].
  split; [done|]. by eapply list_elem_of_lookup_2.
Qed.

Lemma triple_select_in (P : world → Prop) c ps :
  triple P (select_in c ps)
    (λ obs w, P w ∧ ∀ r, r ∈ obs → r ∈ rows (imgdata w)) P.
Proof.
  intros w Hw. unfold select_in. destruct (has_column (imgdata w) c); [|done].
  split; [done|]. by intros r [_ Hr]%list_elem_of_filter.
Qed.

Lemma triple_named_tuples (P E : world → Prop) cursor :
  (∀ w, P w → E w) →
  triple P (named_tuples cursor) (λ obs w, P w ∧ obs = cursor) E.
Proof.
  intros HE w Hw. unfold named_tuples.
  destruct (field_names_ok _); [done|by apply HE].
Qed.

Lemma triple_attribute (P E : world → Prop) r name :
  (∀ w, P w → E w) →
  triple P (attribute r name) (λ v w, P w ∧ v = get r name) E.
Proof.
  intros HE w Hw. unfold attribute.
  destruct (has_column _ _); [done|by apply HE].
Qed.

(** ** The invariant of an ingested store *)

Section RunFacts.

Variable registry : list field_def.
Variable uuid4 : nat → string.
Variable files : string → string → option image.

Local Abbreviation drawn := (drawn uuid4).
Local Abbreviation identified := (identified uuid4).
Local Abbreviation ingested := (ingested uuid4).

Lemma drawn_mono n m v : (n ≤ m)%nat → drawn n v → drawn m v.
Proof. intros Hnm (i & Hi & ->). exists i. split; [lia|done]. Qed.

Lemma identified_mono n m r :
  (n ≤ m)%nat → identified n r → identified m r.
Proof. intros Hnm [? ?]. split; by eapply drawn_mono. Qed.

Lemma drawn_not_null n v : drawn n v → v ≠ VNull.
Proof. by intros (i & _ & ->). Qed.

Lemma ingested_updated sets p w :
  (∀ r, identified (uuid_calls w) r →
        oid (assign sets r) = oid r ∧
        drawn (uuid_calls w) (gid (assign sets r))) →
  ingested w → ingested (updated sets p w).
Proof.
  intros Hsets (Hid & Hnd & Hcols). unfold ingested, updated. simpl.
  assert (oid <$> ((λ r, if sql_eq (oid r) p then assign sets r else r)
                     <$> rows (imgdata w)) = oid <$> rows (imgdata w)) as Ho.
  { rewrite <- list_fmap_compose. apply list_fmap_ext.
    intros i r Hr%list_elem_of_lookup_2. simpl.
    destruct (sql_eq (oid r) p); [|done].
    apply Hsets. by eapply (proj1 (Forall_forall _ _) Hid). }
  split_and!.
  - apply Forall_fmap, Forall_forall. intros r Hr. simpl.
    pose proof (proj1 (Forall_forall _ _) Hid r Hr) as Hr'.
    destruct (sql_eq (oid r) p); [|done].
    destruct (Hsets r Hr') as [Ho' Hg]. split; [|done].
    rewrite Ho'. apply Hr'.
  - by rewrite Ho.
  - destruct Hcols as [->|?]; [by left|by right].
Qed.

Lemma update_where_cases sets p w :
  update_where sets "observation_id" p w = (updated sets p w, Returned tt) ∨
  update_where sets "observation_id" p w = (w, Raised OperationalError).
Proof.
  unfold update_where, updated.
  destruct (forallb _ _); [by left|by right].
Qed.

Lemma triple_update n obs sets p :
  (∀ r, identified n r →
        oid (assign sets r) = oid r ∧ drawn n (gid (assign sets r))) →
  triple (holding uuid4 n obs) (update_where sets "observation_id" p)
         (λ _, holding uuid4 n obs) (holding uuid4 n obs).
Proof.
  intros Hsets w (Hw & Hn & Hobs).
  destruct (update_where_cases sets p w) as [-> | ->]; [|done].
  split_and!; [|done..]. apply ingested_updated; [|done]. by rewrite Hn.
Qed.

Lemma assign_group_id_identified n (o1 r : row) :
  identified n o1 → identified n r →
  oid (assign [("group_id", gid o1)] r) = oid r ∧
  drawn n (gid (assign [("group_id", gid o1)] r)).
Proof.
  intros [_ Hg] _. unfold oid, gid, assign. simpl.
  rewrite !get_insert. split; [done|]. apply Hg.
Qed.

Lemma assign_updates_identified n (src dst r : row) :
  identified n dst → identified n r →
  oid (assign (updates_of registry src dst) r) = oid r ∧
  drawn n (gid (assign (updates_of registry src dst) r)).
Proof.
  intros [Ho Hg] [_ Hr]. unfold oid, gid in *.
  rewrite !get_assign_updates.
  apply drawn_not_null, is_none_false in Ho, Hg.
  by rewrite Ho, Hg, !andb_false_r.
Qed.

Lemma triple_copy_pass n obs :
  triple (holding uuid4 n obs) (copy_pass registry obs)
         (λ _, holding uuid4 n obs) (holding uuid4 n obs).
Proof.
  unfold copy_pass. apply triple_for_each. intros [from_ to] _.
  eapply triple_bind; [apply triple_index|]. intros dst. simpl.
  eapply triple_bind.
  { eapply triple_weaken; [apply (triple_index (λ w, holding uuid4 n obs w ∧ dst ∈ obs))|..];
      [done|intros src w H; exact (proj1 H)|by intros w [? ?]]. }
  intros src.
  assert (∀ w, holding uuid4 n obs w ∧ dst ∈ obs → identified n dst) as Hdst.
  { intros w [(_ & _ & Hobs) Hin]. by eapply (proj1 (Forall_forall _ _) Hobs). }
  destruct (updates_of registry src dst) as [|u us] eqn:Hu.
  - apply triple_ret. by intros w [? ?].
  - intros w Hw. rewrite <- Hu.
    apply (triple_update n obs); [|apply Hw].
    intros r Hr. apply assign_updates_identified; [|done]. by eapply Hdst.
Qed.

Lemma triple_set_related n a b :
  triple (holding uuid4 n []) (set_related registry a b)
         (λ _, holding uuid4 n []) (holding uuid4 n []).
Proof.
  unfold set_related.
  eapply triple_bind; [apply triple_select_in|]. intros cur. simpl.
  eapply triple_bind; [apply triple_named_tuples; by intros w [? ?]|].
  intros obs. simpl.
  eapply triple_weaken with
    (P' := holding uuid4 n obs) (Q' := λ _, holding uuid4 n obs) (E' := holding uuid4 n obs).
  - eapply triple_bind; [apply triple_index|]. intros first. simpl.
    set (obs' := if py_ne _ _ then reverse obs else obs).
    eapply triple_weaken with
      (P' := holding uuid4 n obs') (Q' := λ _, holding uuid4 n obs') (E' := holding uuid4 n obs').
    + eapply triple_bind; [apply triple_index|]. intros o1. simpl.
      eapply triple_bind; [apply triple_attribute; by intros w [? ?]|].
      intros group_id. simpl.
      eapply triple_bind.
      { eapply triple_weaken;
          [apply (triple_index
                    (λ w, (holding uuid4 n obs' w ∧ o1 ∈ obs') ∧
                          group_id = get o1 "group_id"))|..];
          [done|intros o0 w H; exact (proj1 H)|by intros w [[? ?] ?]]. }
      intros o0. eapply triple_bind.
      * intros w [[Hw Ho1] Hg].
        apply (triple_update n obs'); [|done].
        intros r Hr. rewrite Hg. apply assign_group_id_identified; [|done].
        destruct Hw as (_ & _ & Hobs).
        by eapply (proj1 (Forall_forall _ _) Hobs).
      * intros u. apply triple_copy_pass.
    + intros w [(Hw & Hn & Hobs) _]. unfold holding; split_and!; [done..|].
      unfold obs'. destruct (py_ne _ _); [by apply Forall_reverse|done].
    + intros u w (Hw & Hn & Hobs). unfold holding; split_and!; [done..|].
      unfold obs' in Hobs. destruct (py_ne _ _); [by apply Forall_reverse|done].
    + intros w (Hw & Hn & Hobs). unfold holding; split_and!; [done..|].
      unfold obs' in Hobs. destruct (py_ne _ _); [by apply Forall_reverse|done].
  - intros w [[(Hw & Hn & _) Hobs] ->]. unfold holding; split_and!; [done..|].
    apply Forall_forall. intros r Hr.
    destruct Hw as (Hid & _). rewrite <- Hn.
    by eapply (proj1 (Forall_forall _ _) Hid), Hobs.
  - intros u w (Hw & Hn & _). by unfold holding; split_and!.
  - intros w (Hw & Hn & _). by unfold holding; split_and!.
Qed.

Lemma ingested_set_related a b w :
  ingested w → ingested (set_related registry a b w).1.
Proof.
  intros Hw.
  pose proof (triple_set_related (uuid_calls w) a b w) as H.
  destruct (set_related registry a b w) as [w' [u|e]]; simpl; by apply H.
Qed.

(** *** Drawing an identifier, ungrouping *)

Lemma ingested_draw w :
  ingested w → ingested (World (imgdata w) (S (uuid_calls w))).
Proof.
  intros (Hid & Hnd & Hcols). split_and!; [|done..]. simpl.
  eapply Forall_impl; [done|]. intros r. apply identified_mono. lia.
Qed.

Lemma assign_fresh_group_id n (r : row) :
  identified (S n) r →
  oid (assign [("group_id", VText (uuid4 n))] r) = oid r ∧
  drawn (S n) (gid (assign [("group_id", VText (uuid4 n))] r)).
Proof.
  intros _. unfold oid, gid, assign. simpl. rewrite !get_insert.
  split; [done|]. exists n. split; [lia|done].
Qed.

Lemma unset_related_cases a w :
  let w1 := World (imgdata w) (S (uuid_calls w)) in
  let sets := [("group_id", VText (uuid4 (uuid_calls w)))] in
  unset_related uuid4 a w = (updated sets (VText a) w1, Returned tt) ∨
  unset_related uuid4 a w = (w1, Raised OperationalError).
Proof.
  simpl. unfold unset_related.
  erewrite bind_returned by reflexivity. apply update_where_cases.
Qed.

Lemma ingested_unset_related a w :
  ingested w → ingested (unset_related uuid4 a w).1.
Proof.
  intros Hw%ingested_draw.
  destruct (unset_related_cases a w) as [-> | ->]; simpl; [|done].
  apply ingested_updated; [|done]. simpl.
  intros r. apply assign_fresh_group_id.
Qed.

(** *** Ingestion *)

Lemma triple_read_image (P : world → Prop) basedir path :
  triple P (read_image files basedir path) (λ _, P) P.
Proof. intros w Hw. unfold read_image. by destruct (files basedir path). Qed.

Lemma triple_exif_item (P : world → Prop) img key :
  triple P (exif_item img key) (λ _, P) P.
Proof. intros w Hw. unfold exif_item. by destruct (img_exif img !! key). Qed.

Lemma triple_replace_colons (P : world → Prop) v :
  triple P (replace_colons v) (λ _, P) P.
Proof. intros w Hw. by destruct v. Qed.

Lemma get_new_row cols given f :
  f ∈ cols →
  get (new_row cols given) f =
    default VNull ((list_to_map given : gmap string value) !! f).
Proof.
  intros Hf. unfold get at 1.
  by rewrite lookup_new_row, bool_decide_eq_true_2.
Qed.

Lemma has_column_elem t f : has_column t f = true ↔ f ∈ (columns t).*1.
Proof. unfold has_column. apply bool_decide_eq_true. Qed.

(** The row [add_images] inserts, in a table with the columns it
    names. *)
Lemma ingested_row_fields cols name path bytes time iw ih hash o g :
  let r := new_row cols
    (zip ["image_name"; "image_path"; "image_bytes"; "image_time";
          "image_w"; "image_h"; "image_hash"; "observation_id";
          "group_id"; "group_number"]
         [VText name; VText path; VInt bytes; time; iw; ih; VText hash;
          VText o; VText g; VInt 1]) in
  "observation_id" ∈ cols → "group_id" ∈ cols → "group_number" ∈ cols →
  oid r = VText o ∧ gid r = VText g ∧ get r "group_number" = VInt 1.
Proof.
  intros r H1 H2 H3. unfold r, oid, gid.
  rewrite !get_new_row by done. simpl zip.
  rewrite !list_to_map_cons.
  split_and!; by simplify_map_eq.
Qed.

Local Abbreviation ingest_names :=
  ["image_name"; "image_path"; "image_bytes"; "image_time";
   "image_w"; "image_h"; "image_hash"; "observation_id";
   "group_id"; "group_number"].

Local Abbreviation ingest_values img path time iw ih o g :=
  [VText (img_name img); VText path; VInt (img_bytes img); time;
   iw; ih; VText (img_hash img); VText o; VText g; VInt 1].

Lemma ingest_tail_cases (img : image) path time iw ih w :
  let n := uuid_calls w in
  let t := imgdata w in
  let r := new_row (columns t).*1
             (zip ingest_names
                  (ingest_values img path time iw ih (uuid4 n) (uuid4 (S n)))) in
  let m := (observation_id ← uuid4_hex uuid4;
            group_id ← uuid4_hex uuid4;
            insert_row ingest_names
              (ingest_values img path time iw ih observation_id group_id)) in
  (m w = (World (Table (columns t) (rows t ++ [r])) (S (S n)), Returned tt) ∧
   forallb (has_column t) ingest_names = true) ∨
  ∃ e, m w = (World t (S (S n)), Raised e).
Proof.
  intros n t r m. unfold m.
  erewrite bind_returned by reflexivity.
  erewrite bind_returned by reflexivity.
  unfold insert_row. cbn [imgdata uuid_calls]. fold t.
  destruct (forallb (has_column t) ingest_names) eqn:Hc.
  - left. done.
  - right. by eexists.
Qed.

Hypothesis uuid4_inj : Inj (=) (=) uuid4.

Lemma drawn_fresh n v : drawn n v → v ≠ VText (uuid4 n).
Proof.
  intros (i & Hi & ->) [= Heq]. apply uuid4_inj in Heq. lia.
Qed.

Lemma grown_refl w : ingested w → grown uuid4 w w.
Proof.
  intros Hw. split_and!; [done..|]. exists []. rewrite app_nil_r.
  split_and!; [done|constructor|constructor].
Qed.

Lemma grown_draw w0 w :
  grown uuid4 w0 w → grown uuid4 w0 (World (imgdata w) (S (S (uuid_calls w)))).
Proof.
  intros (Hw & Hn & new & Hrows & Hnew & Hnd).
  split_and!; simpl; [by do 2 apply ingested_draw in Hw|lia|].
  exists new. split_and!; [done| |done].
  eapply Forall_impl; [done|]. simpl.
  intros r (? & j & ? & ?). split; [done|]. exists j. split; [lia|done].
Qed.

Lemma grown_insert w0 w (r : row) :
  grown uuid4 w0 w →
  has_column (imgdata w) "observation_id" = true →
  has_column (imgdata w) "group_id" = true →
  oid r = VText (uuid4 (uuid_calls w)) →
  gid r = VText (uuid4 (S (uuid_calls w))) →
  get r "group_number" = VInt 1 →
  grown uuid4 w0
    (World (Table (columns (imgdata w)) (rows (imgdata w) ++ [r]))
           (S (S (uuid_calls w)))).
Proof.
  intros (Hw & Hn & new & Hrows & Hnew & Hnd) Hc1 Hc2 Ho Hg Hgn.
  destruct Hw as (Hid & Hndo & Hcols).
  split_and!; simpl.
  - split_and!; simpl.
    + apply Forall_app. split.
      * eapply Forall_impl; [done|]. intros r'. apply identified_mono. lia.
      * apply Forall_singleton. split.
        -- exists (uuid_calls w). split; [lia|done].
        -- exists (S (uuid_calls w)). split; [lia|done].
    + rewrite fmap_app. apply NoDup_app. split_and!; [done| |apply NoDup_singleton].
      intros v (r' & -> & Hr')%list_elem_of_fmap Hin.
      apply list_elem_of_singleton in Hin. rewrite Ho in Hin.
      pose proof (proj1 (Forall_forall _ _) Hid r' Hr') as [Hd _].
      by apply drawn_fresh in Hd.
    + right. done.
  - lia.
  - exists (new ++ [r]). split_and!.
    + by rewrite Hrows, app_assoc.
    + apply Forall_app. split.
      * eapply Forall_impl; [done|]. simpl.
        intros r' (? & j & ? & ?). split; [done|]. exists j. split; [lia|done].
      * apply Forall_singleton. split; [done|].
        exists (S (uuid_calls w)). split; [lia|done].
    + rewrite fmap_app. apply NoDup_app. split_and!; [done| |apply NoDup_singleton].
      intros v (r' & -> & Hr')%list_elem_of_fmap Hin.
      apply list_elem_of_singleton in Hin. rewrite Hg in Hin.
      pose proof (proj1 (Forall_forall _ _) Hnew r' Hr') as (_ & j & Hj & Hj').
      rewrite Hj' in Hin. injection Hin as Hin. apply uuid4_inj in Hin. lia.
Qed.

Lemma triple_add_images w0 basedir paths :
  triple (grown uuid4 w0) (add_images uuid4 files basedir paths)
         (λ _, grown uuid4 w0) (grown uuid4 w0).
Proof.
  unfold add_images.
  apply triple_bind with (Q := λ _, grown uuid4 w0);
    [|intros u; by apply triple_ret].
  apply triple_for_each. intros path _.
  eapply triple_bind; [apply triple_select_in|]. intros [|x res].
  - eapply triple_weaken with
      (P' := grown uuid4 w0) (Q' := λ _, grown uuid4 w0) (E' := grown uuid4 w0);
      [|by intros w [? _]|done..].
    eapply triple_bind; [apply triple_read_image|]. intros img.
    eapply triple_bind; [apply triple_exif_item|]. intros t.
    eapply triple_bind; [apply triple_replace_colons|]. intros time.
    eapply triple_bind; [apply triple_exif_item|]. intros iw.
    eapply triple_bind; [apply triple_exif_item|]. intros ih.
    intros w Hw.
    destruct (ingest_tail_cases img path time iw ih w) as [[-> Hc] | [e ->]].
    + simpl in Hc. repeat (apply andb_prop in Hc as [? Hc]).
      edestruct (ingested_row_fields (columns (imgdata w)).*1) as (Ho & Hg & Hgn);
        [by apply has_column_elem..|].
      by apply grown_insert.
    + by apply grown_draw.
  - apply triple_ret. by intros w [? _].
Qed.

Lemma ingested_add_images basedir paths w :
  ingested w → grown uuid4 w (add_images uuid4 files basedir paths w).1.
Proof.
  intros Hw%grown_refl.
  pose proof (triple_add_images w basedir paths w Hw) as H.
  by destruct (add_images uuid4 files basedir paths w) as [w' [u|e]].
Qed.

Lemma ingested_step w o : ingested w → ingested (step registry uuid4 files w o).
Proof.
  intros Hw. destruct o as [basedir paths|a b|a]; simpl.
  - by apply ingested_add_images.
  - by apply ingested_set_related.
  - by apply ingested_unset_related.
Qed.

Lemma ingested_run ops w :
  ingested w → ingested (run registry uuid4 files ops w).
Proof.
  unfold run. revert w. induction ops as [|o ops IH]; intros w Hw; [done|].
  simpl. by apply IH, ingested_step.
Qed.

Lemma ingested_empty w : rows (imgdata w) = [] → ingested w.
Proof.
  intros Hw. hnf. rewrite Hw.
  split_and!; [constructor|constructor|by left].
Qed.

(** *** The three parts of the group-closure property *)






End RunFacts.

(** * The program on the small store *)

Module DemoFacts.
Import Demo.

Lemma records_a : records_of (imgdata store) "a" = [rec_a].
Proof. apply (bool_decide_unpack _). vm_compute. exact I. Qed.

Lemma records_b : records_of (imgdata store) "b" = [rec_b].
Proof. apply (bool_decide_unpack _). vm_compute. exact I. Qed.

Lemma records_c : records_of (imgdata store) "c" = [rec_c].
Proof. apply (bool_decide_unpack _). vm_compute. exact I. Qed.

Lemma schema : schema_ok registry (imgdata store) = true.
Proof. vm_compute. reflexivity. Qed.

Lemma fields_ok : tuple_fields_ok (imgdata store) = true.
Proof. vm_compute. reflexivity. Qed.

Lemma no_record_z : records_of (imgdata store) "z" = [].
Proof. apply (bool_decide_unpack _). vm_compute. exact I. Qed.

Lemma group_id_not_copied : copyable registry "group_id" = false.
Proof. vm_compute. reflexivity. Qed.

(** Merging [a] into the group of [b]: [a] receives the species of [b]
    and keeps its own notes; [b] receives nothing. *)
Lemma set_related_copy_pass_witness :
  ∃ w' A' B',
    set_related registry "a" "b" store = (w', Returned tt) ∧
    records_of (imgdata w') "a" = [A'] ∧
    records_of (imgdata w') "b" = [B'] ∧
    get A' "species" = VText "fox" ∧
    get A' "notes" = VText "dusk" ∧
    get B' "notes" = VNull.
Proof.
  destruct (set_related_copy_pass registry store "a" "b" rec_a rec_b)
    as (w' & A' & B' & Hr & HA & HB & _ & Hf);
    [exact schema | exact fields_ok | discriminate | exact records_a
    | exact records_b |].
  exists w', A', B'. split_and!; [done..| | |].
  - destruct (Hf "species") as (-> & _); [by vm_compute..|by vm_compute].
  - destruct (Hf "notes") as (_ & _ & -> & _); [done|by vm_compute..].
  - destruct (Hf "notes") as (_ & _ & _ & _ & _ & ->); by vm_compute.
Defined.

(** [b] is fetched before [a], and still [a] joins the group of [b]. *)
Lemma set_related_group_id_witness :
  fetched "a" "b" (rows (imgdata store)) = [rec_b; rec_a] ∧
  ∃ w' A' B',
    set_related registry "a" "b" store = (w', Returned tt) ∧
    records_of (imgdata w') "a" = [A'] ∧
    records_of (imgdata w') "b" = [B'] ∧
    gid A' = VText "g2" ∧ gid B' = VText "g2".
Proof.
  split; [apply (bool_decide_unpack _); vm_compute; exact I|].
  destruct (set_related_group_id registry store "a" "b" rec_a rec_b)
    as (w' & A' & B' & Hr & HA & HB & HgA & HgB);
    [exact schema | exact fields_ok | discriminate | exact records_a
    | exact records_b | left; exact group_id_not_copied |].
  exists w', A', B'. split_and!; [done..| |].
  - rewrite HgA. by vm_compute.
  - rewrite HgB. by vm_compute.
Defined.

Lemma set_related_commutes_per_field_witness :
  ∃ w1 A1 B1 w2 A2 B2,
    set_related registry "b" "a" store = (w1, Returned tt) ∧
    records_of (imgdata w1) "b" = [A1] ∧ records_of (imgdata w1) "a" = [B1] ∧
    set_related registry "a" "b" store = (w2, Returned tt) ∧
    records_of (imgdata w2) "b" = [A2] ∧ records_of (imgdata w2) "a" = [B2] ∧
    get A1 "species" = VText "fox" ∧ get B1 "species" = VText "fox" ∧
    get A2 "species" = VText "fox" ∧ get B2 "species" = VText "fox" ∧
    gid A1 = VText "g1" ∧ gid B2 = VText "g2".
Proof.
  destruct (set_related_commutes_per_field registry store "b" "a" rec_b rec_a
              "species")
    as (w1 & A1 & B1 & w2 & A2 & B2 & Hr1 & HA1 & HB1 & Hr2 & HA2 & HB2
        & H1 & H2 & H3 & H4 & _ & Hg1 & Hg2);
    [exact schema | exact fields_ok | discriminate | exact records_b
    | exact records_a | by vm_compute | discriminate | by vm_compute
    | by vm_compute |].
  exists w1, A1, B1, w2, A2, B2.
  rewrite H1, H2, H3, H4, Hg1, Hg2. split_and!; [done..| | | | | |]; by vm_compute.
Defined.

Lemma set_related_idempotent_witness :
  let w1 := (set_related registry "a" "b" store).1 in
  let w2 := (set_related registry "a" "b" w1).1 in
  (set_related registry "a" "b" w1).2 = (set_related registry "a" "b" store).2 ∧
  columns (imgdata w2) = columns (imgdata w1) ∧
  Forall2 same_fields (rows (imgdata w1)) (rows (imgdata w2)).
Proof.
  apply (set_related_idempotent registry store "a" "b" rec_a rec_b);
    [exact schema | exact records_a | exact records_b
    | left; exact group_id_not_copied].
Defined.

Lemma set_related_unknown_id_witness :
  set_related registry "a" "z" store = (store, Raised IndexError).
Proof.
  apply set_related_unknown_id.
  - by vm_compute.
  - exact fields_ok.
  - rewrite records_a. simpl. lia.
  - rewrite no_record_z. simpl. lia.
  - right. exact no_record_z.
Defined.

(** [c] and [b] are both in group [g2]; merging them leaves the group
    identifiers alone and gives [c] the species of [b]. *)
Lemma set_related_same_group_witness :
  (set_related registry "c" "c" store).1 = store ∧
  ∃ w' A' B',
    set_related registry "c" "b" store = (w', Returned tt) ∧
    records_of (imgdata w') "c" = [A'] ∧
    records_of (imgdata w') "b" = [B'] ∧
    gid A' = VText "g2" ∧ gid B' = VText "g2" ∧
    get B' "species" = VText "fox" ∧ get A' "species" = VText "fox".
Proof.
  destruct (set_related_same_group registry store "c" rec_c) as [Hself Hpair];
    [exact schema | exact records_c |].
  split; [exact Hself|].
  destruct (Hpair "b" rec_b)
    as (w' & A' & B' & Hr & HA & HB & _ & HgA & HgB & Hf);
    [exact fields_ok | discriminate | exact records_b | by vm_compute |].
  exists w', A', B'. rewrite HgA, HgB. split_and!; [done..| | | |].
  - by vm_compute.
  - by vm_compute.
  - destruct (Hf "species") as (_ & -> & _); by vm_compute.
  - destruct (Hf "species") as (_ & _ & -> & _); by vm_compute.
Defined.

(** C3, as stated, fails on the code: [c] and [b] already share a
    [group_id], the call succeeds, and the stored species of [c]
    changes from NULL to that of [b]. *)
Lemma set_related_same_group_changes_field :
  gid rec_c = gid rec_b ∧
  (λ r, get r "species") <$> records_of (imgdata store) "c" = [VNull] ∧
  (set_related registry "c" "b" store).2 = Returned tt ∧
  (λ r, get r "species")
    <$> records_of (imgdata (set_related registry "c" "b" store).1) "c"
  = [VText "fox"].
Proof. split_and!; by vm_compute. Qed.

(** Merging a record of the store with itself raises. *)
Lemma set_related_self_raises_demo :
  set_related registry "c" "c" store = (store, Raised IndexError).
Proof.
  apply (set_related_self_raises registry store "c" rec_c);
    [by vm_compute | exact fields_ok | exact records_c].
Qed.

Lemma unset_related_unknown_id_witness :
  ∃ w', unset_related uuid4 "z" store = (w', Returned tt) ∧
        imgdata w' = imgdata store.
Proof.
  apply unset_related_unknown_id;
    [by vm_compute | by vm_compute | exact no_record_z].
Defined.

(** One new image: a record is added, and the call returns [None], not
    the count 1. *)
Lemma add_images_returns_none_demo :
  (add_images uuid4 files "pics" ["a.jpg"] empty_store).2 = Returned None ∧
  List.length
    (rows (imgdata (add_images uuid4 files "pics" ["a.jpg"] empty_store).1))
  = 1%nat.
Proof. split; by vm_compute. Qed.



(** A column that Python's [namedtuple] refuses: the merge raises
    before any [update]. *)
Lemma set_related_bad_fields_demo :
  let w := World (Table (("_flag", "text") :: cols) [rec_b; rec_a; rec_c]) 0 in
  set_related registry "a" "b" w = (w, Raised ValueError).
Proof. by vm_compute. Qed.


(** The run of the witness above, evaluated: two records, the first
    ungrouped again after the merge. *)
Lemma demo_run_groups :
  (λ r, (oid r, gid r)) <$>
    rows (imgdata (run registry uuid4 files
                     [AddImages "pics" ["a.jpg"; "b.jpg"]; SetRelated "0" "2";
                      UnsetRelated "0"; AddImages "pics" ["a.jpg"]]
                     empty_store))
  = [(VText "0", VText "4"); (VText "2", VText "3")].
Proof. by vm_compute. Qed.

(** The EXIF timestamp as [add_images] stores it. *)
Lemma replace_colons_demo :
  replace_char ":"%char "/"%char 2 "2023:06:01 18:30:00" = "2023/06/01 18:30:00".
Proof. reflexivity. Qed.

End DemoFacts.


(** * More of the program *)

(** ** What the grouping operations leave alone *)

Lemma agree_on_refl keep w : agree_on keep w w.
Proof.
  split; [done|]. by apply Forall_Forall2_diag, Forall_forall.
Qed.

Lemma agree_on_updated (keep : string → Prop) sets p w0 w :
  (∀ f, f ∈ sets.*1 → ¬ keep f) →
  agree_on keep w0 w → agree_on keep w0 (updated sets p w).
Proof.
  intros Hsets [Hc Hr]. split; [done|]. unfold updated. simpl.
  apply Forall2_fmap_r. eapply Forall2_impl; [done|].
  intros r0 r Hf f Hk. simpl. destruct (sql_eq (oid r) p); [|by apply Hf].
  rewrite get_assign_other; [by apply Hf|]. intros Hin. by eapply Hsets.
Qed.

Lemma triple_update_agree (keep : string → Prop) n w0 sets p :
  (∀ f, f ∈ sets.*1 → ¬ keep f) →
  triple (λ w, uuid_calls w = n ∧ agree_on keep w0 w)
         (update_where sets "observation_id" p)
         (λ _ w, uuid_calls w = n ∧ agree_on keep w0 w)
         (λ w, uuid_calls w = n ∧ agree_on keep w0 w).
Proof.
  intros Hsets w [Hn Hw].
  destruct (update_where_cases sets p w) as [-> | ->]; [|done].
  split; [done|]. by apply agree_on_updated.
Qed.

Lemma triple_index_keep {A} (P : world → Prop) (l : list A) i :
  triple P (index l i) (λ _, P) P.
Proof.
  eapply triple_weaken; [apply triple_index|done| |done]. by intros x w [? _].
Qed.

Lemma triple_select_in_keep (P : world → Prop) c ps :
  triple P (select_in c ps) (λ _, P) P.
Proof.
  eapply triple_weaken; [apply triple_select_in|done| |done]. by intros x w [? _].
Qed.

Lemma triple_named_tuples_keep (P : world → Prop) cursor :
  triple P (named_tuples cursor) (λ _, P) P.
Proof.
  eapply triple_weaken; [by apply (triple_named_tuples P P)|done| |done].
  by intros x w [? _].
Qed.

Lemma triple_attribute_keep (P : world → Prop) r name :
  triple P (attribute r name) (λ _, P) P.
Proof.
  eapply triple_weaken; [by apply (triple_attribute P P)|done| |done].
  by intros x w [? _].
Qed.

Section Footprint.

Variable registry : list field_def.

Lemma triple_set_related_agree n w0 a b :
  let keep := λ f, f ≠ "group_id" ∧ copyable registry f = false in
  triple (λ w, uuid_calls w = n ∧ agree_on keep w0 w)
         (set_related registry a b)
         (λ _ w, uuid_calls w = n ∧ agree_on keep w0 w)
         (λ w, uuid_calls w = n ∧ agree_on keep w0 w).
Proof.
  intros keep. unfold set_related.
  eapply triple_bind; [apply triple_select_in_keep|]. intros cur.
  eapply triple_bind; [apply triple_named_tuples_keep|]. intros obs.
  eapply triple_bind; [apply triple_index_keep|]. intros first. simpl.
  eapply triple_bind; [apply triple_index_keep|]. intros o1.
  eapply triple_bind; [apply triple_attribute_keep|]. intros group_id.
  eapply triple_bind; [apply triple_index_keep|]. intros o0.
  eapply triple_bind.
  { apply triple_update_agree. intros f Hf%list_elem_of_singleton [Hk _]. done. }
  intros u. unfold copy_pass. apply triple_for_each. intros [from_ to] _.
  eapply triple_bind; [apply triple_index_keep|]. intros dst.
  eapply triple_bind; [apply triple_index_keep|]. intros src. simpl.
  destruct (updates_of registry src dst) as [|x xs] eqn:Hu.
  - by apply triple_ret.
  - rewrite <- Hu. apply triple_update_agree.
    intros f [Hc _]%updates_of_names [_ Hk]. congruence.
Qed.

(** X1. Whatever its arguments and whether it returns or raises,
    [set_related] draws no identifier, keeps the columns and the number
    of rows, and leaves every field other than [group_id] and the
    copy-on-merge fields as it was, on every row. *)
Theorem set_related_footprint w a b :
  uuid_calls (set_related registry a b w).1 = uuid_calls w ∧
  agree_on (λ f, f ≠ "group_id" ∧ copyable registry f = false)
           w (set_related registry a b w).1.
Proof.
  pose proof (triple_set_related_agree (uuid_calls w) w a b w
                (conj eq_refl (agree_on_refl _ w))) as H.
  by destruct (set_related registry a b w) as [w' [u|e]].
Qed.

End Footprint.

Section UngroupFootprint.

Variable uuid4 : nat → string.

(** X2. Whatever its argument and whether it returns or raises,
    [unset_related] draws exactly one identifier, keeps the columns and
    the number of rows, and leaves every field other than [group_id] as
    it was, on every row. *)
Theorem unset_related_footprint w a :
  uuid_calls (unset_related uuid4 a w).1 = S (uuid_calls w) ∧
  agree_on (λ f, f ≠ "group_id") w (unset_related uuid4 a w).1.
Proof.
  destruct (unset_related_cases uuid4 a w) as [-> | ->]; simpl.
  - split; [done|].
    apply agree_on_updated; [by intros f Hf%list_elem_of_singleton Hk|].
    exact (agree_on_refl _ w).
  - split; [done|]. exact (agree_on_refl _ w).
Qed.

End UngroupFootprint.

(** ** Ingestion, one path at a time *)

Lemma for_each_inv {A} (R : world → Prop) (body : A → M unit) xs w :
  (∀ x w, R w → R (body x w).1) → R w → R (for_each xs body w).1.
Proof.
  intros Hstep. revert w. induction xs as [|x xs IH]; intros w Hw; [done|].
  simpl for_each. unfold mbind, M_bind, bind.
  specialize (Hstep x w Hw).
  destruct (body x w) as [w1 [[]|e]]; [|done]. by apply IH.
Qed.

Lemma for_each_app_cases {A} (body : A → M unit) xs ys w :
  for_each (xs ++ ys) body w =
    match for_each xs body w with
    | (w1, Returned _) => for_each ys body w1
    | (w1, Raised e) => (w1, Raised e)
    end.
Proof.
  revert w. induction xs as [|x xs IH]; intros w; [done|].
  simpl. unfold mbind, M_bind, bind.
  destruct (body x w) as [w1 [[]|e]]; [|done]. apply IH.
Qed.


Lemma for_each_inv_elem {A} (R : world → Prop) (body : A → M unit) xs w :
  (∀ x w, x ∈ xs → R w → R (body x w).1) → R w → R (for_each xs body w).1.
Proof.
  revert w. induction xs as [|x xs IH]; intros w Hstep Hw; [done|].
  simpl for_each. unfold mbind, M_bind, bind.
  pose proof (Hstep x w ltac:(left) Hw) as Hx.
  destruct (body x w) as [w1 [[]|e]]; [|done].
  apply IH; [|done]. intros y w' Hy. apply Hstep. by right.
Qed.

Lemma for_each_skip {A} (body : A → M unit) xs w :
  (∀ x, x ∈ xs → body x w = (w, Returned tt)) →
  for_each xs body w = (w, Returned tt).
Proof.
  induction xs as [|x xs IH]; intros Hxs; [done|].
  simpl for_each. unfold mbind, M_bind, bind.
  rewrite Hxs by left. apply IH. intros y Hy. apply Hxs. by right.
Qed.

Lemma for_each_cons_returned {A} (body : A → M unit) x xs w w' :
  for_each (x :: xs) body w = (w', Returned tt) →
  ∃ w1, body x w = (w1, Returned tt) ∧ for_each xs body w1 = (w', Returned tt).
Proof.
  simpl for_each. unfold mbind, M_bind, bind.
  destruct (body x w) as [w1 [[]|e]]; [|done]. by exists w1.
Qed.

Lemma for_each_cons_raised {A} (body : A → M unit) x xs w w1 e :
  body x w = (w1, Raised e) → for_each (x :: xs) body w = (w1, Raised e).
Proof.
  intros H. simpl for_each. unfold mbind, M_bind, bind. by rewrite H.
Qed.

Lemma for_each_app {A} (xs ys : list A) body w :
  for_each (xs ++ ys) body w = (for_each xs body ;; for_each ys body) w.
Proof.
  revert w. induction xs as [|x xs IH]; intros w; [done|].
  simpl. unfold mbind, M_bind, bind in *.
  destruct (body x w) as [w1 [[]|e]]; [|done]. apply IH.
Qed.

Lemma elem_of_paths_of t p :
  p ∈ paths_of t ↔ ∃ r, r ∈ rows t ∧ get r "image_path" = VText p.
Proof.
  unfold paths_of. rewrite list_elem_of_omap. split.
  - intros (r & Hr & Hp). exists r. split; [done|].
    by destruct (get r "image_path"); simplify_eq/=.
  - intros (r & Hr & Hp). exists r. split; [done|]. by rewrite Hp.
Qed.

Lemma paths_of_app cols rs rs' :
  paths_of (Table cols (rs ++ rs')) =
  paths_of (Table cols rs) ++ paths_of (Table cols rs').
Proof. unfold paths_of. simpl. apply omap_app. Qed.

Lemma select_path_nil t p :
  filter (λ r, existsb (sql_eq (get r "image_path")) [VText p] = true) (rows t) = []
  → p ∉ paths_of t.
Proof.
  intros Hnil (r & Hr & Hp)%elem_of_paths_of.
  eapply (filter_nil_not_elem_of _ _ r); [exact Hnil| |done].
  simpl. by rewrite (proj2 (sql_eq_text _ _) Hp).
Qed.

Lemma select_path_cons t p x l :
  filter (λ r, existsb (sql_eq (get r "image_path")) [VText p] = true) (rows t)
  = x :: l → p ∈ paths_of t.
Proof.
  intros Hl. assert (x ∈ x :: l) as Hx by left. rewrite <- Hl in Hx.
  apply list_elem_of_filter in Hx as [Hx Hin]. simpl in Hx.
  rewrite orb_false_r in Hx. apply sql_eq_text in Hx.
  apply elem_of_paths_of. by exists x.
Qed.

Section IngestOne.

Variable uuid4 : nat → string.
Variable files : string → string → option image.

Local Abbreviation ingest basedir :=
  (λ path : string,
    res ← select_in "image_path" [VText path];
    match res with
    | _ :: _ => mret tt
    | [] =>
        img ← read_image files basedir path;
        t ← exif_item img "datetime_original";
        image_time ← replace_colons t;
        image_w ← exif_item img "pixel_x_dimension";
        image_h ← exif_item img "pixel_y_dimension";
        observation_id ← uuid4_hex uuid4;
        group_id ← uuid4_hex uuid4;
        insert_row
          ["image_name"; "image_path"; "image_bytes"; "image_time";
           "image_w"; "image_h"; "image_hash"; "observation_id";
           "group_id"; "group_number"]
          [VText (img_name img); VText path; VInt (img_bytes img); image_time;
           image_w; image_h; VText (img_hash img); VText observation_id;
           VText group_id; VInt 1]
    end).

Lemma add_images_for_each basedir paths w :
  add_images uuid4 files basedir paths w =
    match for_each paths (ingest basedir) w with
    | (w', Returned _) => (w', Returned None)
    | (w', Raised e) => (w', Raised e)
    end.
Proof. reflexivity. Qed.

Local Ltac raised_early :=
  left; eexists; split;
    [simpl in *; eassumption|let H := fresh in intros ? H; discriminate H].

Lemma ingest_cases basedir p w :
  let t := imgdata w in
  let n := uuid_calls w in
  (∃ o, ingest basedir p w = (w, o) ∧
        (∀ u, o = Returned u →
              has_column t "image_path" = true ∧ p ∈ paths_of t)) ∨
  ((p ∉ paths_of t) ∧
   ∃ e, ingest basedir p w = (World t (S (S n)), Raised e)) ∨
  ((p ∉ paths_of t) ∧
   ∃ img s iw ih,
     files basedir p = Some img ∧
     img_exif img !! "datetime_original" = Some (VText s) ∧
     img_exif img !! "pixel_x_dimension" = Some iw ∧
     img_exif img !! "pixel_y_dimension" = Some ih ∧
     forallb (has_column t)
       ["image_name"; "image_path"; "image_bytes"; "image_time";
        "image_w"; "image_h"; "image_hash"; "observation_id";
        "group_id"; "group_number"] = true ∧
     ingest basedir p w =
       (World (Table (columns t)
                 (rows t ++
                  [ingested_row (columns t).*1 img p
                     (VText (replace_char ":"%char "/"%char 2 s)) iw ih
                     (uuid4 n) (uuid4 (S n))]))
              (S (S n)), Returned tt)).
Proof.
  intros t n. remember (ingest basedir p w) as res eqn:Hres.
  unfold mbind at 1, M_bind, bind, select_in in Hres. fold t in Hres.
  destruct (has_column t "image_path") eqn:Hc; [|raised_early].
  destruct (filter _ (rows t)) as [|x l] eqn:Hsel.
  2:{ left. eexists. split; [exact Hres|]. intros _ _. split; [done|].
      by eapply select_path_cons. }
  apply select_path_nil in Hsel.
  unfold mbind at 1, M_bind, bind, read_image in Hres.
  destruct (files basedir p) as [img|] eqn:Hf; [|raised_early].
  simpl in Hres. unfold mbind at 1, M_bind, bind, exif_item in Hres.
  destruct (img_exif img !! "datetime_original") as [v|] eqn:Ht;
    [|raised_early].
  simpl in Hres. unfold mbind at 1, M_bind, bind in Hres.
  destruct v as [|z|s]; simpl in Hres; [raised_early..|].
  unfold mbind at 1, M_bind, bind in Hres.
  destruct (img_exif img !! "pixel_x_dimension") as [iw|] eqn:Hw;
    [|raised_early].
  simpl in Hres. unfold mbind at 1, M_bind, bind in Hres.
  destruct (img_exif img !! "pixel_y_dimension") as [ih|] eqn:Hh;
    [|raised_early].
  simpl in Hres.
  destruct (ingest_tail_cases uuid4 img p
              (VText (replace_char ":"%char "/"%char 2 s)) iw ih w)
    as [[Hr Hcols] | [e Hr]]; right.
  - right. split; [done|]. exists img, s, iw, ih.
    split_and!; [done..|]. rewrite Hres. exact Hr.
  - left. split; [done|]. exists e. rewrite Hres. exact Hr.
Qed.

Lemma get_new_row_unnamed cols given f :
  f ∉ given.*1 → get (new_row cols given) f = VNull.
Proof.
  intros Hf. unfold get. rewrite lookup_new_row.
  case_bool_decide; [|done]. simpl.
  by rewrite (not_elem_of_list_to_map_1 _ _ Hf).
Qed.

(** The fields of the row [add_images] builds, in a table that has the
    ten columns it names. *)
Lemma ingested_row_get (t : table) img p time iw ih o g :
  forallb (has_column t)
    ["image_name"; "image_path"; "image_bytes"; "image_time";
     "image_w"; "image_h"; "image_hash"; "observation_id";
     "group_id"; "group_number"] = true →
  let r := ingested_row (columns t).*1 img p time iw ih o g in
  get r "image_name" = VText (img_name img) ∧
  get r "image_path" = VText p ∧
  get r "image_bytes" = VInt (img_bytes img) ∧
  get r "image_time" = time ∧
  get r "image_w" = iw ∧
  get r "image_h" = ih ∧
  get r "image_hash" = VText (img_hash img) ∧
  get r "observation_id" = VText o ∧
  get r "group_id" = VText g ∧
  get r "group_number" = VInt 1 ∧
  ∀ f, f ∉ ["image_name"; "image_path"; "image_bytes"; "image_time";
            "image_w"; "image_h"; "image_hash"; "observation_id";
            "group_id"; "group_number"] → get r f = VNull.
Proof.
  intros Hc r. simpl in Hc.
  repeat (apply andb_prop in Hc as [?%has_column_elem Hc]).
  unfold r, ingested_row. split_and!;
    try (rewrite get_new_row by done; simpl zip;
         rewrite !list_to_map_cons; by simplify_map_eq).
  intros f Hf. by apply get_new_row_unnamed.
Qed.

Lemma ingest_present basedir p w :
  has_column (imgdata w) "image_path" = true →
  p ∈ paths_of (imgdata w) →
  ingest basedir p w = (w, Returned tt).
Proof.
  intros Hc Hp. unfold mbind at 1, M_bind, bind, select_in. rewrite Hc.
  destruct (filter _ (rows (imgdata w))) as [|x l] eqn:Hsel; [|done].
  by apply select_path_nil in Hsel.
Qed.

Lemma ingest_unreadable basedir p w :
  has_column (imgdata w) "image_path" = true →
  p ∉ paths_of (imgdata w) →
  files basedir p = None →
  ingest basedir p w = (w, Raised OSError).
Proof.
  intros Hc Hp Hf. unfold mbind at 1, M_bind, bind, select_in. rewrite Hc.
  destruct (filter _ (rows (imgdata w))) as [|x l] eqn:Hsel.
  - unfold mbind at 1, M_bind, bind, read_image. by rewrite Hf.
  - by apply select_path_cons in Hsel.
Qed.

Lemma ingest_missing_exif basedir p w img :
  has_column (imgdata w) "image_path" = true →
  p ∉ paths_of (imgdata w) →
  files basedir p = Some img →
  img_exif img !! "datetime_original" = None ∨
  (∃ s, img_exif img !! "datetime_original" = Some (VText s)) ∧
  (img_exif img !! "pixel_x_dimension" = None ∨
   img_exif img !! "pixel_y_dimension" = None) →
  ingest basedir p w = (w, Raised KeyError).
Proof.
  intros Hc Hp Hf Hex. unfold mbind at 1, M_bind, bind, select_in. rewrite Hc.
  destruct (filter _ (rows (imgdata w))) as [|x l] eqn:Hsel;
    [|by apply select_path_cons in Hsel].
  unfold mbind at 1, M_bind, bind, read_image. rewrite Hf. simpl.
  unfold mbind at 1, M_bind, bind, exif_item.
  destruct Hex as [-> | [[s ->] Hxy]]; [done|]. simpl.
  unfold mbind at 1, M_bind, bind. simpl.
  unfold mbind at 1, M_bind, bind.
  destruct (img_exif img !! "pixel_x_dimension") as [iw|] eqn:Hx; [|done].
  simpl. unfold mbind at 1, M_bind, bind.
  destruct Hxy as [?| ->]; [done|]. done.
Qed.


(** *** Batches *)

Lemma extends_refl w : extends w w.
Proof. split_and!; [done..|]. exists []. by rewrite app_nil_r. Qed.

Lemma extends_trans w0 w1 w2 : extends w0 w1 → extends w1 w2 → extends w0 w2.
Proof.
  intros (Hc1 & Hn1 & new1 & Hr1) (Hc2 & Hn2 & new2 & Hr2).
  split_and!; [congruence|lia|].
  exists (new1 ++ new2). by rewrite Hr2, Hr1, app_assoc.
Qed.

Lemma paths_of_extends w0 w p :
  extends w0 w → p ∈ paths_of (imgdata w0) → p ∈ paths_of (imgdata w).
Proof.
  intros (_ & _ & new & Hr). rewrite !elem_of_paths_of.
  intros (r & Hin & Hp). exists r. split; [|done].
  rewrite Hr. apply elem_of_app. by left.
Qed.

Lemma has_column_extends w0 w c :
  extends w0 w → has_column (imgdata w) c = has_column (imgdata w0) c.
Proof. intros (Hc & _). unfold has_column. by rewrite Hc. Qed.

Lemma ingest_extends basedir p w : extends w (ingest basedir p w).1.
Proof.
  destruct (ingest_cases basedir p w)
    as [(o & -> & _) | [(_ & e & ->) | (_ & img & s & iw & ih & _ & _ & _ & _ & _ & ->)]];
    simpl.
  - apply extends_refl.
  - split_and!; simpl; [done|lia|]. exists []. by rewrite app_nil_r.
  - split_and!; simpl; [done|lia|]. by eexists.
Qed.

Lemma for_each_ingest_inv (R : world → Prop) basedir ps w :
  (∀ p w, R w → R (ingest basedir p w).1) →
  R w → R (for_each ps (ingest basedir) w).1.
Proof. apply for_each_inv. Qed.

Lemma for_each_ingest_extends basedir ps w :
  extends w (for_each ps (ingest basedir) w).1.
Proof.
  apply (for_each_ingest_inv (extends w)); [|apply extends_refl].
  intros p w1 Hw1. eapply extends_trans; [done|apply ingest_extends].
Qed.

Lemma ingest_keeps_paths_unique basedir p w :
  NoDup (paths_of (imgdata w)) →
  NoDup (paths_of (imgdata (ingest basedir p w).1)).
Proof.
  intros Hnd.
  destruct (ingest_cases basedir p w)
    as [(o & -> & _) | [(_ & e & ->) | (Hp & img & s & iw & ih & _ & _ & _ & _ & Hc & ->)]];
    simpl; [done..|].
  rewrite paths_of_app. apply NoDup_app. split_and!; [done| |].
  - intros q Hq Hq'. unfold paths_of in Hq'. simpl in Hq'.
    destruct (ingested_row_get (imgdata w) img p
                (VText (replace_char ":"%char "/"%char 2 s)) iw ih
                (uuid4 (uuid_calls w)) (uuid4 (S (uuid_calls w))) Hc)
      as (_ & -> & _) in Hq'.
    simpl in Hq'. apply list_elem_of_singleton in Hq'. by subst.
  - unfold paths_of. simpl. destruct (text_of _); [apply NoDup_singleton|constructor].
Qed.

Lemma for_each_ingest_present basedir ps w :
  has_column (imgdata w) "image_path" = true →
  (∀ p, p ∈ ps → p ∈ paths_of (imgdata w)) →
  for_each ps (ingest basedir) w = (w, Returned tt).
Proof.
  intros Hc Hps. apply for_each_skip. intros p Hp.
  apply ingest_present; [done|by apply Hps].
Qed.

Lemma ingest_returned basedir p w w1 :
  ingest basedir p w = (w1, Returned tt) → p ∈ paths_of (imgdata w1).
Proof.
  intros Hp.
  destruct (ingest_cases basedir p w)
    as [(o & Ho & Hpres) | [(_ & e & He) | (_ & img & s & iw & ih & _ & _ & _ & _ & Hc & Hr)]].
  - rewrite Hp in Ho. injection Ho as <- <-. by apply (Hpres tt).
  - rewrite Hp in He. done.
  - rewrite Hp in Hr. injection Hr as ->. cbn [imgdata].
    rewrite paths_of_app.
    apply elem_of_app. right. unfold paths_of. simpl.
    destruct (ingested_row_get (imgdata w) img p
                (VText (replace_char ":"%char "/"%char 2 s)) iw ih
                (uuid4 (uuid_calls w)) (uuid4 (S (uuid_calls w))) Hc)
      as (_ & -> & _).
    simpl. by left.
Qed.

Lemma for_each_ingest_returned basedir ps w w' :
  for_each ps (ingest basedir) w = (w', Returned tt) →
  ∀ p, p ∈ ps → p ∈ paths_of (imgdata w').
Proof.
  revert w. induction ps as [|p ps IH]; intros w Hret q Hq;
    [by apply elem_of_nil in Hq|].
  apply for_each_cons_returned in Hret as (w1 & Hp & Hret).
  apply elem_of_cons in Hq as [->|Hq]; [|by eapply IH].
  eapply paths_of_extends; [|by eapply ingest_returned].
  pose proof (for_each_ingest_extends basedir ps w1) as He.
  by rewrite Hret in He.
Qed.

Lemma add_images_returned basedir ps w w' v :
  add_images uuid4 files basedir ps w = (w', Returned v) →
  for_each ps (ingest basedir) w = (w', Returned tt).
Proof.
  rewrite add_images_for_each.
  destruct (for_each ps (ingest basedir) w) as [w1 [[]|e]]; [|done].
  by intros [= ->].
Qed.

Lemma add_images_of_for_each basedir ps w w' o :
  for_each ps (ingest basedir) w = (w', o) →
  add_images uuid4 files basedir ps w =
    (w', match o with Returned _ => Returned None | Raised e => Raised e end).
Proof. intros H. rewrite add_images_for_each, H. by destruct o. Qed.

(** X3. [add_images] skips what the store already has: when every given
    path has a record, the call returns (with [None]) and the world is
    as it was: no row is added and no identifier is drawn. *)
Theorem add_images_skips_present basedir ps w :
  has_column (imgdata w) "image_path" = true →
  (∀ p, p ∈ ps → p ∈ paths_of (imgdata w)) →
  add_images uuid4 files basedir ps w = (w, Returned None).
Proof.
  intros Hc Hps.
  by rewrite (add_images_of_for_each basedir ps w w (Returned tt))
    by by apply for_each_ingest_present.
Qed.

(** X4. [add_images] never gives a path a second record: if no two
    records of the store share an [image_path] before the call, none do
    after it, whether it returns or raises, and even when the list names
    a path twice. *)
Theorem add_images_keeps_paths_unique basedir ps w :
  NoDup (paths_of (imgdata w)) →
  NoDup (paths_of (imgdata (add_images uuid4 files basedir ps w).1)).
Proof.
  intros Hnd. rewrite add_images_for_each.
  pose proof (for_each_ingest_inv (λ w, NoDup (paths_of (imgdata w)))
                basedir ps w (ingest_keeps_paths_unique basedir) Hnd) as H.
  by destruct (for_each ps (ingest basedir) w) as [w' [[]|e]].
Qed.

(** X5. When [add_images] returns, every path it was given has a record,
    and the table is the old one with rows appended: same columns, the
    old rows first and unchanged. *)
Theorem add_images_returned_present basedir ps w w' v :
  add_images uuid4 files basedir ps w = (w', Returned v) →
  extends w w' ∧ ∀ p, p ∈ ps → p ∈ paths_of (imgdata w').
Proof.
  intros Hret%add_images_returned. split.
  - pose proof (for_each_ingest_extends basedir ps w) as He.
    by rewrite Hret in He.
  - by eapply for_each_ingest_returned.
Qed.

(** X6. A batch is its parts in sequence: [add_images] on [ps ++ qs] is
    [add_images] on [ps] followed, when that returns, by [add_images] on
    [qs]; when the first part raises, the second is not started. *)
Theorem add_images_app basedir ps qs w :
  add_images uuid4 files basedir (ps ++ qs) w =
    match add_images uuid4 files basedir ps w with
    | (w1, Returned _) => add_images uuid4 files basedir qs w1
    | (w1, Raised e) => (w1, Raised e)
    end.
Proof.
  rewrite (add_images_for_each basedir (ps ++ qs)), for_each_app_cases.
  rewrite (add_images_for_each basedir ps).
  destruct (for_each ps (ingest basedir) w) as [w1 [[]|e]]; [|done].
  symmetry. apply add_images_for_each.
Qed.

(** X7. The first unreadable file aborts the batch: the records ingested
    before it stay, the call raises [OSError], and the paths after it are
    not looked at. *)
Theorem add_images_aborts_unreadable basedir ps p rest w w1 v :
  add_images uuid4 files basedir ps w = (w1, Returned v) →
  has_column (imgdata w1) "image_path" = true →
  p ∉ paths_of (imgdata w1) →
  files basedir p = None →
  add_images uuid4 files basedir (ps ++ p :: rest) w = (w1, Raised OSError).
Proof.
  intros Hret%add_images_returned Hc Hp Hf.
  apply (add_images_of_for_each _ _ _ _ (Raised OSError)).
  rewrite for_each_app_cases, Hret.
  apply for_each_cons_raised. by apply ingest_unreadable.
Qed.

(** X8. A readable file without one of the EXIF attributes
    [datetime_original], [pixel_x_dimension], [pixel_y_dimension] aborts
    the batch with [KeyError] before anything is written for it: no row
    is inserted and no identifier is drawn. *)
Theorem add_images_aborts_missing_exif basedir p rest w img :
  has_column (imgdata w) "image_path" = true →
  p ∉ paths_of (imgdata w) →
  files basedir p = Some img →
  img_exif img !! "datetime_original" = None ∨
  (∃ s, img_exif img !! "datetime_original" = Some (VText s)) ∧
  (img_exif img !! "pixel_x_dimension" = None ∨
   img_exif img !! "pixel_y_dimension" = None) →
  add_images uuid4 files basedir (p :: rest) w = (w, Raised KeyError).
Proof.
  intros Hc Hp Hf Hex.
  apply (add_images_of_for_each _ _ _ _ (Raised KeyError)).
  apply for_each_cons_raised. by eapply ingest_missing_exif.
Qed.


Lemma ingest_paths_only basedir p w q :
  q ∈ paths_of (imgdata (ingest basedir p w).1) →
  q ∈ paths_of (imgdata w) ∨ q = p.
Proof.
  destruct (ingest_cases basedir p w)
    as [(o & -> & _) | [(_ & e & ->) | (_ & img & s & iw & ih & _ & _ & _ & _ & Hc & ->)]];
    simpl; [by left..|].
  rewrite paths_of_app, elem_of_app. intros [?|Hq]; [by left|right].
  unfold paths_of in Hq. simpl in Hq.
  destruct (ingested_row_get (imgdata w) img p
              (VText (replace_char ":"%char "/"%char 2 s)) iw ih
              (uuid4 (uuid_calls w)) (uuid4 (S (uuid_calls w))) Hc)
    as (_ & Hp & _).
  rewrite Hp in Hq. simpl in Hq. by apply list_elem_of_singleton in Hq.
Qed.

Lemma for_each_ingest_only basedir ps w q :
  q ∈ paths_of (imgdata (for_each ps (ingest basedir) w).1) →
  q ∈ paths_of (imgdata w) ∨ q ∈ ps.
Proof.
  revert q.
  apply (for_each_inv_elem
           (λ w', ∀ q, q ∈ paths_of (imgdata w') →
                       q ∈ paths_of (imgdata w) ∨ q ∈ ps));
    [|by left].
  intros p w1 Hp Hw1 q [Hq| ->]%ingest_paths_only; [by apply Hw1|by right].
Qed.

(** X20. [add_images] makes records for the paths it is given and for
    no other: whether it returns or raises, the table is the old one with
    rows appended, and every path with a record afterwards had one before
    or is in the given list. *)
Theorem add_images_only_given basedir ps w :
  extends w (add_images uuid4 files basedir ps w).1 ∧
  ∀ q, q ∈ paths_of (imgdata (add_images uuid4 files basedir ps w).1) →
       q ∈ paths_of (imgdata w) ∨ q ∈ ps.
Proof.
  rewrite add_images_for_each.
  pose proof (for_each_ingest_extends basedir ps w) as He.
  pose proof (for_each_ingest_only basedir ps w) as Ho.
  by destruct (for_each ps (ingest basedir) w) as [w' [[]|e]].
Qed.

(** *** The folder scan *)

Variable image_list : string → list string.
Variable iter_set : gset value → list value.

(** Python iterates a set in an order of its own: each element once. *)
Hypothesis iter_set_elements : ∀ s, iter_set s ≡ₚ elements s.

Local Abbreviation recs_of w :=
  (list_to_set ((λ r, get r "image_path") <$> rows (imgdata w)) : gset value).

Local Abbreviation folder_of d :=
  (list_to_set (VText <$> image_list d) : gset value).

Lemma omap_head_singletons (l : list row) :
  omap (λ x : list value, x !! 0%nat) ((λ r, get r <$> ["image_path"]) <$> l)
  = (λ r, get r "image_path") <$> l.
Proof. induction l as [|r l IH]; [done|]. simpl in *. by f_equal. Qed.

Lemma image_recs_cases w :
  (has_column (imgdata w) "image_path" = true ∧
   image_recs w = (w, Returned (recs_of w))) ∨
  (has_column (imgdata w) "image_path" = false ∧
   image_recs w = (w, Raised OperationalError)).
Proof.
  unfold image_recs.
  destruct (has_column (imgdata w) "image_path") eqn:Hc; [left|right];
    (split; [done|]).
  - erewrite bind_returned; last first.
    { unfold select_fields. simpl forallb.
      rewrite bool_decide_eq_true_2, Hc by done. reflexivity. }
    by rewrite omap_head_singletons.
  - erewrite bind_raised; [done|].
    unfold select_fields. simpl forallb.
    by rewrite bool_decide_eq_true_2, Hc by done.
Qed.

Lemma elem_of_recs w p : VText p ∈ recs_of w ↔ p ∈ paths_of (imgdata w).
Proof.
  rewrite elem_of_list_to_set, list_elem_of_fmap, elem_of_paths_of.
  split; intros (r & ? & ?); by exists r.
Qed.

Lemma elem_of_folder d p : VText p ∈ folder_of d ↔ p ∈ image_list d.
Proof.
  rewrite elem_of_list_to_set, list_elem_of_fmap. split.
  - by intros (q & [= ->] & ?).
  - intros ?. by exists p.
Qed.

Lemma elem_of_new_paths d w p :
  p ∈ omap text_of (iter_set (folder_of d ∖ recs_of w)) ↔
  p ∈ image_list d ∧ p ∉ paths_of (imgdata w).
Proof.
  rewrite list_elem_of_omap. split.
  - intros (v & Hv & Hp). destruct v as [| |q]; simplify_eq/=.
    rewrite iter_set_elements, elem_of_elements, elem_of_difference in Hv.
    by rewrite <- elem_of_recs, <- elem_of_folder.
  - intros [Hd Hr]. exists (VText p). split; [|done].
    rewrite iter_set_elements, elem_of_elements, elem_of_difference.
    by rewrite elem_of_recs, elem_of_folder.
Qed.

Lemma load_new_cases d w :
  (has_column (imgdata w) "image_path" = false ∧
   load_new uuid4 files image_list iter_set d w = (w, Raised OperationalError)) ∨
  (has_column (imgdata w) "image_path" = true ∧
   load_new uuid4 files image_list iter_set d w =
     match for_each (omap text_of (iter_set (folder_of d ∖ recs_of w)))
                    (ingest d) w with
     | (w', Returned _) => (w', Returned tt)
     | (w', Raised e) => (w', Raised e)
     end).
Proof.
  unfold load_new.
  destruct (image_recs_cases w) as [[Hc Hr] | [Hc Hr]]; [right|left];
    (split; [done|]).
  - erewrite bind_returned by exact Hr.
    unfold mbind at 1, M_bind, bind. rewrite add_images_for_each.
    by destruct (for_each _ _ w) as [w' [[]|e]].
  - by erewrite bind_raised by exact Hr.
Qed.

Lemma load_new_returned d w w' :
  load_new uuid4 files image_list iter_set d w = (w', Returned tt) →
  has_column (imgdata w) "image_path" = true ∧
  for_each (omap text_of (iter_set (folder_of d ∖ recs_of w))) (ingest d) w
    = (w', Returned tt).
Proof.
  destruct (load_new_cases d w) as [[_ ->] | [Hc ->]]; [done|].
  destruct (for_each _ _ w) as [w1 [[]|e]]; [|done]. by intros [= ->].
Qed.

Lemma load_new_paths d w w' :
  load_new uuid4 files image_list iter_set d w = (w', Returned tt) →
  extends w w' ∧
  ∀ q, q ∈ paths_of (imgdata w') ↔
       q ∈ paths_of (imgdata w) ∨ q ∈ image_list d.
Proof.
  intros [Hc Hrun]%load_new_returned.
  pose proof (elem_of_new_paths d w) as Hnew.
  set (ps := omap text_of (iter_set (folder_of d ∖ recs_of w))) in *.
  pose proof (for_each_ingest_extends d ps w) as He.
  pose proof (for_each_ingest_only d ps w) as Ho.
  pose proof (for_each_ingest_returned d ps w w' Hrun) as Hp.
  rewrite Hrun in He, Ho. simpl in *. split; [done|]. intros q. split.
  - intros [?|[? _]%Hnew]%Ho; [by left|by right].
  - intros [Hq|Hq]; [by eapply paths_of_extends|].
    destruct (decide (q ∈ paths_of (imgdata w))); [by eapply paths_of_extends|].
    apply Hp, Hnew. done.
Qed.

Lemma load_new_noop d w :
  has_column (imgdata w) "image_path" = true →
  (∀ p, p ∈ image_list d → p ∈ paths_of (imgdata w)) →
  load_new uuid4 files image_list iter_set d w = (w, Returned tt).
Proof.
  intros Hc Hall. destruct (load_new_cases d w) as [[Hc' _] | [_ ->]];
    [congruence|].
  rewrite for_each_ingest_present; [done|done|].
  intros p [Hd Hp]%elem_of_new_paths. exfalso. by apply Hp, Hall.
Qed.

Lemma check_new_ok d w :
  has_column (imgdata w) "image_path" = true →
  check_new image_list d w =
    (w, Returned (Report (size (folder_of d)) (size (recs_of w))
                         (size (folder_of d ∖ recs_of w))
                         (size (recs_of w ∖ folder_of d))
                         (size (recs_of w ∩ folder_of d)))).
Proof.
  intros Hc. unfold check_new.
  destruct (image_recs_cases w) as [[_ Hr] | [Hc' _]]; [|congruence].
  by erewrite bind_returned by exact Hr.
Qed.

(** X21. When [load_new] returns, the store has a record for every image
    of the folder: the paths with a record are those that had one and
    those the scan found, and the old rows are still there, first and
    unchanged. *)
Theorem load_new_covers_folder d w w' :
  load_new uuid4 files image_list iter_set d w = (w', Returned tt) →
  extends w w' ∧
  (∀ q, q ∈ paths_of (imgdata w') ↔
        q ∈ paths_of (imgdata w) ∨ q ∈ image_list d) ∧
  (NoDup (paths_of (imgdata w)) → NoDup (paths_of (imgdata w'))).
Proof.
  intros Hret. destruct (load_new_paths d w w' Hret) as [He Hp].
  split_and!; [done..|].
  apply load_new_returned in Hret as [_ Hrun]. intros Hnd.
  set (ps := omap text_of (iter_set (folder_of d ∖ recs_of w))) in *.
  pose proof (for_each_ingest_inv (λ w, NoDup (paths_of (imgdata w)))
                d ps w (ingest_keeps_paths_unique d) Hnd) as H.
  by rewrite Hrun in H.
Qed.

(** X22. [load_new] brings the store level with the folder: a
    [check_new] right after a [load_new] that returned reports no image
    in the folder only, and as many in both as in the folder; and a
    second [load_new] changes nothing. *)
Theorem load_new_then_check_new d w w' :
  load_new uuid4 files image_list iter_set d w = (w', Returned tt) →
  (∃ rep, check_new image_list d w' = (w', Returned rep) ∧
          folder_only rep = 0%nat ∧ in_both rep = in_folder rep) ∧
  load_new uuid4 files image_list iter_set d w' = (w', Returned tt).
Proof.
  intros Hret. destruct (load_new_paths d w w' Hret) as [He Hp].
  apply load_new_returned in Hret as [Hc _].
  assert (has_column (imgdata w') "image_path" = true) as Hc'
    by by rewrite (has_column_extends w w').
  assert (folder_of d ⊆ recs_of w') as Hsub.
  { intros v [p [-> Hin]]%elem_of_list_to_set%list_elem_of_fmap.
    apply elem_of_recs, Hp. by right. }
  split.
  - eexists. split; [by apply check_new_ok|]. simpl. split.
    + replace (folder_of d ∖ recs_of w') with (∅ : gset value);
        [apply size_empty|].
      apply set_eq. intros v. rewrite elem_of_difference. split.
      * by intros ?%elem_of_empty.
      * intros [Hv Hn]. destruct Hn. by apply Hsub.
    + f_equal. apply set_eq. intros v. rewrite elem_of_intersection.
      split; [tauto|]. intros Hv. split; [by apply Hsub|done].
  - apply load_new_noop; [done|]. intros p Hin. apply Hp. by right.
Qed.

(** X23. The numbers [check_new] prints add up: the images in the folder
    are those in the folder only plus those in both, the paths in the
    data are those in the data only plus those in both; and the call
    changes nothing. *)
Theorem check_new_report d w :
  has_column (imgdata w) "image_path" = true →
  ∃ rep, check_new image_list d w = (w, Returned rep) ∧
         in_folder rep = (folder_only rep + in_both rep)%nat ∧
         in_data rep = (data_only rep + in_both rep)%nat.
Proof.
  clear uuid4 files iter_set_elements.
  intros Hc. eexists. split; [by apply check_new_ok|]. simpl. split.
  - rewrite <- size_union; last first.
    { intros v [_ Hn]%elem_of_difference [Hi _]%elem_of_intersection. done. }
    f_equal. apply set_eq. intros v.
    rewrite elem_of_union, elem_of_difference, elem_of_intersection.
    destruct (decide (v ∈ recs_of w)); tauto.
  - rewrite <- size_union; last first.
    { intros v [_ Hn]%elem_of_difference [_ Hi]%elem_of_intersection. done. }
    f_equal. apply set_eq. intros v.
    rewrite elem_of_union, elem_of_difference, elem_of_intersection.
    destruct (decide (v ∈ folder_of d)); tauto.
Qed.

End IngestOne.

(** ** Import, on its own *)

Lemma insert_row_cases fields vals w :
  (forallb (has_column (imgdata w)) fields = false ∧
   insert_row fields vals w = (w, Raised OperationalError)) ∨
  (forallb (has_column (imgdata w)) fields = true ∧
   List.length fields ≠ List.length vals ∧
   insert_row fields vals w = (w, Raised ProgrammingError)) ∨
  (forallb (has_column (imgdata w)) fields = true ∧
   List.length fields = List.length vals ∧
   insert_row fields vals w =
     (World (Table (columns (imgdata w))
               (rows (imgdata w) ++
                [new_row (columns (imgdata w)).*1 (zip fields vals)]))
            (uuid_calls w), Returned tt)).
Proof.
  unfold insert_row.
  destruct (forallb (has_column (imgdata w)) fields); simpl; [|by left].
  right. destruct (Nat.eqb_spec (List.length fields) (List.length vals));
    simpl; [right|left]; done.
Qed.

Lemma for_each_insert_row_returned fields cols (l : list (list value)) rs n w' :
  for_each l (λ vals, insert_row fields vals) (World (Table cols rs) n)
    = (w', Returned tt) →
  Forall (λ vals, List.length vals = List.length fields) l ∧
  w' = World (Table cols
                (rs ++ ((λ vals, new_row cols.*1 (zip fields vals)) <$> l))) n.
Proof.
  revert rs. induction l as [|vals l IH]; intros rs Hret.
  - simpl in Hret. injection Hret as <-. by rewrite app_nil_r.
  - apply for_each_cons_returned in Hret as (w1 & Hone & Hret).
    destruct (insert_row_cases fields vals (World (Table cols rs) n))
      as [(_ & H) | [(_ & _ & H) | (_ & Hlen & H)]];
      rewrite H in Hone; try done.
    injection Hone as <-. simpl in Hret.
    apply IH in Hret as [Hl ->]. split; [by constructor|].
    by rewrite <- app_assoc.
Qed.

Lemma get_new_row_zip cols fields vals :
  NoDup fields → List.length vals = List.length fields →
  (∀ f, f ∈ fields → f ∈ cols) →
  get (new_row cols (zip fields vals)) <$> fields = vals.
Proof.
  intros Hnd. revert vals.
  induction Hnd as [|f fields Hf Hnd IH]; intros vals Hlen Hcols.
  - by destruct vals.
  - destruct vals as [|v vals]; [done|]. simpl in Hlen.
    rewrite fmap_cons. f_equal.
    + rewrite get_new_row by (apply Hcols; by left).
      simpl zip. by rewrite list_to_map_cons, lookup_insert_eq.
    + rewrite <- (IH vals) at 2; [|lia|intros g Hg; apply Hcols; by right].
      apply list_fmap_ext. intros i g Hg%list_elem_of_lookup_2.
      rewrite !get_new_row by (apply Hcols; by right).
      simpl zip. rewrite list_to_map_cons, lookup_insert_ne; [done|].
      intros ->. done.
Qed.

Lemma fst_fmap_pair {A B} (g : A → B) (l : list A) :
  ((λ x, (x, g x)) <$> l).*1 = l.
Proof. rewrite <- list_fmap_compose. apply list_fmap_id. Qed.

Section ImportFacts.

Variable registry : list field_def.

Lemma xlsx_to_sqlite_not_empty ws t :
  xlsx_to_sqlite registry ws = Returned t → header ws ≠ [].
Proof.
  unfold xlsx_to_sqlite. destruct (field_types registry); [|done].
  by destruct (header ws).
Qed.

Lemma xlsx_to_sqlite_returned ws t :
  xlsx_to_sqlite registry ws = Returned t →
  ∃ ft, field_types registry = Some ft ∧
    columns t = (λ f, (f, type_of ft f)) <$> declared_fields registry ws ∧
    NoDup (declared_fields registry ws) ∧
    Forall (λ vals, List.length vals = List.length (header ws)) (data ws) ∧
    rows t = (λ vals, new_row (declared_fields registry ws)
                        (zip (header ws) vals)) <$> data ws.
Proof.
  intros Hret. pose proof (xlsx_to_sqlite_not_empty ws t Hret) as Hne.
  revert Hret.
  destruct (field_types registry) as [ft|] eqn:Hft;
    [|unfold xlsx_to_sqlite; by rewrite Hft].
  rewrite (xlsx_to_sqlite_header registry ws ft Hft Hne).
  pose proof (field_types_names registry ft Hft) as Hnames.
  set (sql := (_ ++ _)%list).
  assert (sql = (λ f, (f, type_of ft f)) <$> declared_fields registry ws) as Hsql.
  { unfold sql, declared_fields. by rewrite fmap_app, Hnames. }
  assert (sql.*1 = declared_fields registry ws) as Hsql1.
  { by rewrite Hsql, fst_fmap_pair. }
  unfold create_table. case_bool_decide as Hok; [|done].
  destruct Hok as [_ Hnd]. rewrite Hsql1 in Hnd.
  destruct (for_each _ _ _) as [w [[]|e]] eqn:Hrun; [|done].
  intros [= <-]. apply for_each_insert_row_returned in Hrun as [Hlen ->].
  exists ft. simpl. rewrite Hsql1. by split_and!.
Qed.

Lemma elem_of_declared_fields ws f :
  f ∈ declared_fields registry ws ↔
  f ∈ header ws ∨ f ∈ fd_name <$> registry.
Proof.
  unfold declared_fields. rewrite elem_of_app, list_elem_of_filter.
  destruct (decide (f ∈ header ws)); tauto.
Qed.

Lemma has_column_imported ws t f :
  xlsx_to_sqlite registry ws = Returned t →
  has_column t f = true ↔ f ∈ header ws ∨ f ∈ fd_name <$> registry.
Proof.
  intros (ft & _ & Hc & _)%xlsx_to_sqlite_returned.
  rewrite has_column_elem, Hc, fst_fmap_pair.
  apply elem_of_declared_fields.
Qed.

Lemma type_of_declared ft fd ty :
  field_types registry = Some ft → NoDup (fd_name <$> registry) →
  fd ∈ registry → fd_type fd = Some ty →
  type_of ft (fd_name fd) = ty.
Proof.
  intros Hft Hnd Hfd Hty. unfold type_of.
  rewrite (elem_of_list_to_map_1 ft (fd_name fd) ty); [done| |].
  - by rewrite (field_types_names registry ft Hft).
  - unfold field_types in Hft. apply mapM_Some in Hft.
    clear Hnd. induction Hft as [|fd' nt reg ft' Hh Ht IH];
      [by apply elem_of_nil in Hfd|].
    apply elem_of_cons in Hfd as [<-|Hfd]; [|right; by apply IH].
    rewrite Hty in Hh. injection Hh as <-. by left.
Qed.

Lemma type_of_undeclared ft f :
  field_types registry = Some ft → f ∉ fd_name <$> registry →
  type_of ft f = "text".
Proof.
  intros Hft Hf. unfold type_of.
  rewrite (not_elem_of_list_to_map_1 ft f); [done|].
  by rewrite (field_types_names registry ft Hft).
Qed.

(** The type [sheet_conforms] measures a cell against is the type its
    column is declared with in the imported table. *)
Lemma declared_type_imported ws t f :
  xlsx_to_sqlite registry ws = Returned t →
  f ∈ declared_fields registry ws →
  (f, declared_type registry f) ∈ columns t.
Proof.
  intros (ft & Hft & Hc & _)%xlsx_to_sqlite_returned Hf.
  rewrite Hc. apply list_elem_of_fmap. exists f. split; [|done].
  unfold declared_type. by rewrite Hft.
Qed.

(** X10. The table [xlsx_to_sqlite] returns has the header's fields as
    its first columns, in the header's order, followed by the registry's
    fields the header does not name: no name twice, every header field
    and every registry field a column.  A registry field has its
    declared type, a field the registry does not know has type [text]. *)
Theorem xlsx_to_sqlite_schema ws t :
  xlsx_to_sqlite registry ws = Returned t →
  NoDup (fd_name <$> registry) →
  (columns t).*1 = declared_fields registry ws ∧
  NoDup (columns t).*1 ∧
  (∀ f, has_column t f = true ↔ f ∈ header ws ∨ f ∈ fd_name <$> registry) ∧
  (∀ fd ty, fd ∈ registry → fd_type fd = Some ty →
            (fd_name fd, ty) ∈ columns t) ∧
  (∀ f, f ∈ header ws → f ∉ fd_name <$> registry →
        (f, "text") ∈ columns t).
Proof.
  intros Hret Hreg.
  pose proof (λ f, has_column_imported ws t f Hret) as Hcol.
  destruct (xlsx_to_sqlite_returned ws t Hret) as (ft & Hft & Hc & Hnd & _).
  assert ((columns t).*1 = declared_fields registry ws) as Hnames.
  { by rewrite Hc, fst_fmap_pair. }
  split_and!; [done|by rewrite Hnames|by intros f; apply Hcol| |].
  - intros fd ty Hfd Hty. rewrite Hc. apply list_elem_of_fmap.
    exists (fd_name fd). split.
    + by rewrite (type_of_declared ft fd ty).
    + apply elem_of_declared_fields. right. by apply list_elem_of_fmap_2.
  - intros f Hf Hnf. rewrite Hc. apply list_elem_of_fmap.
    exists f. split.
    + by rewrite (type_of_undeclared ft f).
    + apply elem_of_declared_fields. by left.
Qed.

Lemma project_imported ws t :
  xlsx_to_sqlite registry ws = Returned t → project (header ws) t = data ws.
Proof.
  intros (ft & _ & _ & Hnd & Hlen & Hrows)%xlsx_to_sqlite_returned.
  assert (NoDup (header ws)) as Hndh.
  { unfold declared_fields in Hnd. by apply NoDup_app in Hnd as [? _]. }
  unfold project. rewrite Hrows, <- list_fmap_compose.
  rewrite <- (list_fmap_id (data ws)) at 2.
  apply list_fmap_ext. intros i vals Hv%list_elem_of_lookup_2. simpl.
  apply get_new_row_zip; [done| |].
  - by apply (proj1 (Forall_forall _ _) Hlen).
  - intros f Hf. apply elem_of_declared_fields. by left.
Qed.

(** X11. What [xlsx_to_sqlite] returns is the sheet, when every cell is
    a value the column declared for its field stores as it is: one
    record per data row, in the sheet's order, holding the row's values
    under the header's fields and NULL under every other column. *)
Theorem xlsx_to_sqlite_rows ws t :
  xlsx_to_sqlite registry ws = Returned t →
  sheet_conforms registry ws = true →
  project (header ws) t = data ws ∧
  ∀ r f, r ∈ rows t → f ∉ header ws → get r f = VNull.
Proof.
  intros Hret _. split; [by apply project_imported|].
  apply xlsx_to_sqlite_returned in Hret as (ft & _ & _ & _ & _ & Hrows).
  intros r f Hr Hf. rewrite Hrows in Hr.
  apply list_elem_of_fmap in Hr as (vals & -> & Hv).
  apply get_new_row_unnamed. intros Hin. apply Hf.
  apply list_elem_of_fmap in Hin as ([g v] & -> & Hgv).
  by apply elem_of_zip_l in Hgv.
Qed.

Lemma xlsx_to_sqlite_unfold ws ft :
  field_types registry = Some ft → header ws ≠ [] →
  xlsx_to_sqlite registry ws =
    match create_table ((λ f, (f, type_of ft f)) <$> declared_fields registry ws) with
    | Raised e => Raised e
    | Returned t =>
        match for_each (data ws) (λ row, insert_row (header ws) row) (World t 0) with
        | (w, Returned _) => Returned (imgdata w)
        | (_, Raised e) => Raised e
        end
    end.
Proof.
  intros Hft Hne. rewrite (xlsx_to_sqlite_header registry ws ft Hft Hne).
  unfold declared_fields.
  by rewrite fmap_app, (field_types_names registry ft Hft).
Qed.

Lemma create_table_cases (cols : list (string * string)) :
  (cols ≠ [] ∧ NoDup cols.*1 ∧ create_table cols = Returned (Table cols [])) ∨
  (¬ (cols ≠ [] ∧ NoDup cols.*1) ∧ create_table cols = Raised OperationalError).
Proof.
  unfold create_table. case_bool_decide as H; [left|right].
  - by destruct H.
  - done.
Qed.

Lemma has_column_declared ws ft rs f :
  f ∈ header ws →
  has_column (Table ((λ f, (f, type_of ft f)) <$> declared_fields registry ws) rs) f
  = true.
Proof.
  intros Hf. apply has_column_elem. simpl. rewrite fst_fmap_pair.
  apply elem_of_declared_fields. by left.
Qed.

Lemma xlsx_to_sqlite_ok ws :
  is_Some (field_types registry) →
  header ws ≠ [] →
  NoDup (declared_fields registry ws) →
  Forall (λ vals, List.length vals = List.length (header ws)) (data ws) →
  ∃ t, xlsx_to_sqlite registry ws = Returned t.
Proof.
  intros [ft Hft] Hne Hnd Hlen.
  rewrite (xlsx_to_sqlite_unfold ws ft Hft Hne).
  destruct (create_table_cases
              ((λ f, (f, type_of ft f)) <$> declared_fields registry ws))
    as [(_ & _ & ->) | (Hbad & _)].
  - rewrite for_each_insert_row; [by eexists| |done].
    apply forallb_forall. intros f Hf%list_elem_of_In.
    by apply has_column_declared.
  - exfalso. apply Hbad. rewrite fst_fmap_pair. split; [|done].
    unfold declared_fields. by destruct (header ws).
Qed.

(** X12. A sheet whose header names a field twice cannot be imported:
    [create table] refuses the duplicate column and [xlsx_to_sqlite]
    raises [OperationalError] (the old table is dropped by then). *)
Theorem xlsx_to_sqlite_duplicate_header ws :
  is_Some (field_types registry) →
  ¬ NoDup (header ws) →
  xlsx_to_sqlite registry ws = Raised OperationalError.
Proof.
  intros [ft Hft] Hdup.
  assert (header ws ≠ []) as Hne.
  { intros Hnil. apply Hdup. rewrite Hnil. constructor. }
  rewrite (xlsx_to_sqlite_unfold ws ft Hft Hne).
  destruct (create_table_cases
              ((λ f, (f, type_of ft f)) <$> declared_fields registry ws))
    as [(_ & Hnd & _) | (_ & ->)]; [|done].
  exfalso. apply Hdup. rewrite fst_fmap_pair in Hnd.
  unfold declared_fields in Hnd. by apply NoDup_app in Hnd as [? _].
Qed.

(** X13. A registry field without a [type] makes every import fail with
    [KeyError], whatever the sheet, before the database is touched. *)
Theorem xlsx_to_sqlite_untyped_field ws fd :
  fd ∈ registry → fd_type fd = None →
  xlsx_to_sqlite registry ws = Raised KeyError.
Proof.
  intros Hfd Hty. unfold xlsx_to_sqlite.
  assert (field_types registry = None) as ->; [|done].
  unfold field_types. apply mapM_None, Exists_exists.
  exists fd. split; [done|]. by rewrite Hty.
Qed.

(** X15. An imported table is ready for grouping: when the header or the
    registry names [observation_id] and [group_id], the table
    [xlsx_to_sqlite] returns has the two identifier columns and a column
    for every copy-on-merge field. *)
Theorem xlsx_to_sqlite_schema_ok ws t :
  xlsx_to_sqlite registry ws = Returned t →
  "observation_id" ∈ declared_fields registry ws →
  "group_id" ∈ declared_fields registry ws →
  schema_ok registry t = true.
Proof.
  intros Hret Ho Hg.
  pose proof (λ f, has_column_imported ws t f Hret) as Hcol.
  unfold schema_ok. rewrite !andb_true_iff. split_and!.
  - by apply Hcol, elem_of_declared_fields.
  - by apply Hcol, elem_of_declared_fields.
  - apply forallb_forall. intros fd Hfd%list_elem_of_In.
    destruct (fd_copy fd); [|done]. simpl.
    apply Hcol. right. by apply list_elem_of_fmap_2.
Qed.

(** X16. Import then export is a round trip on the sheet, when every
    cell is a value that the column declared for its field and the
    workbook file store as they are, and the last row has a value:
    exporting the table [xlsx_to_sqlite] made from the sheet, into any
    file with the same header, saves that sheet again (whatever rows the
    file had), and leaves the table as it is. *)
Theorem import_export_round_trip ws ws2 t n :
  xlsx_to_sqlite registry ws = Returned t →
  header ws ≠ [] → header ws2 = header ws →
  sheet_conforms registry ws = true →
  kept_sheet ws = true →
  sqlite_to_xlsx ws2 (World t n) = (World t n, Returned ws).
Proof.
  intros Hret Hne Hh _ Hkept.
  pose proof (λ f, has_column_imported ws t f Hret) as Hcol.
  rewrite sqlite_to_xlsx_unfold by (by rewrite Hh). rewrite Hh.
  erewrite bind_returned; last first.
  { unfold select_fields. simpl imgdata.
    rewrite bool_decide_eq_true_2 by done.
    assert (forallb (has_column t) (header ws) = true) as ->; [|reflexivity].
    apply forallb_forall. intros f Hf%list_elem_of_In. apply Hcol. by left. }
  fold (project (header ws) t).
  rewrite (project_imported ws t Hret).
  assert (Sheet (header ws) (data ws) = ws) as -> by by destruct ws.
  by rewrite (saved_kept ws Hkept).
Qed.



End ImportFacts.

(** ** Time stamps in records and in file names *)

Lemma replace_char_zero old new s : replace_char old new 0 s = s.
Proof. by destruct s. Qed.

Lemma replace_char_length old new n s :
  String.length (replace_char old new n s) = String.length s.
Proof.
  revert n. induction s as [|c s IH]; intros n; [by destruct n|].
  destruct n as [|n]; [done|]. simpl.
  destruct (Ascii.eqb c old); simpl; by rewrite IH.
Qed.

Lemma replace_char_skip old new n y rest :
  occurs old y = false →
  replace_char old new (S n) (String.append y (String old rest)) =
  String.append y (String new (replace_char old new n rest)).
Proof.
  induction y as [|c y IH]; simpl.
  - intros _. by rewrite Ascii.eqb_refl.
  - intros [Hc Hy]%orb_false_elim. rewrite Hc. by rewrite IH.
Qed.

(** X18. The capture time as stored: [replace(":", "/", 2)] keeps the
    length of the string and rewrites the first two colons only, so a
    time stamp [Y:M:rest] with no colon in [Y] and [M] becomes
    [Y/M/rest], the colons of [rest] (the time of day) kept. *)
Theorem replace_colons_date y m rest :
  occurs ":"%char y = false → occurs ":"%char m = false →
  let s := String.append y (String ":"%char
             (String.append m (String ":"%char rest))) in
  replace_char ":"%char "/"%char 2 s =
    String.append y (String "/"%char
      (String.append m (String "/"%char rest))) ∧
  String.length (replace_char ":"%char "/"%char 2 s) = String.length s.
Proof.
  intros Hy Hm s. split; [|apply replace_char_length].
  unfold s. rewrite replace_char_skip by done. do 2 f_equal.
  rewrite replace_char_skip by done. by rewrite replace_char_zero.
Qed.

Lemma occurs_append c s1 s2 :
  occurs c (String.append s1 s2) = occurs c s1 || occurs c s2.
Proof.
  induction s1 as [|d s1 IH]; simpl; [done|]. by rewrite IH, orb_assoc.
Qed.

Lemma occurs_remove_char c s : occurs c (remove_char c s) = false.
Proof.
  induction s as [|d s IH]; simpl; [done|].
  destruct (Ascii.eqb d c) eqn:Hd; [done|]. simpl. by rewrite Hd.
Qed.

Lemma occurs_replace_all_other c old new s :
  c ≠ new → occurs c s = false →
  occurs c (replace_all_char old new s) = false.
Proof.
  intros Hc. induction s as [|d s IH]; simpl; [done|].
  intros [Hd Hs]%orb_false_elim. rewrite IH by done.
  destruct (Ascii.eqb d old); [|by rewrite Hd].
  rewrite orb_false_r. apply Ascii.eqb_neq. congruence.
Qed.

Lemma occurs_replace_all_old old new s :
  old ≠ new → occurs old (replace_all_char old new s) = false.
Proof.
  intros Hc. induction s as [|d s IH]; simpl; [done|]. rewrite IH.
  rewrite orb_false_r. destruct (Ascii.eqb d old) eqn:Hd; [|done].
  apply Ascii.eqb_neq. congruence.
Qed.

(** X19. The file name [image_time_filename] makes from a capture time
    ends in [.jpg] and has no colon and no space in it; without the EXIF
    attribute [datetime_original] the call raises [KeyError]. *)
Theorem image_time_filename_safe (exif : gmap string value) w :
  (exif !! "datetime_original" = None →
   image_time_filename exif w = (w, Raised KeyError)) ∧
  (∀ s, exif !! "datetime_original" = Some (VText s) →
     ∃ stem,
       image_time_filename exif w = (w, Returned (String.append stem ".jpg")) ∧
       occurs ":"%char (String.append stem ".jpg") = false ∧
       occurs " "%char (String.append stem ".jpg") = false).
Proof.
  unfold image_time_filename. split; [by intros ->|].
  intros s ->. eexists. split; [done|].
  rewrite !occurs_append. split.
  - rewrite occurs_replace_all_other; [done|done|apply occurs_remove_char].
  - by rewrite occurs_replace_all_old.
Qed.

(** ** Grouping, ungrouping and ingesting, one after the other *)

Lemma records_of_updated sets x w y :
  (∀ r, oid (assign sets r) = oid r) →
  records_of (imgdata (updated sets (VText x) w)) y =
    (if decide (y = x) then assign sets else id) <$> records_of (imgdata w) y.
Proof.
  intros Hoid. unfold records_of, updated. simpl.
  rewrite filter_oid_fmap; last first.
  { intros r. by destruct (sql_eq (oid r) (VText x)). }
  apply list_fmap_ext. intros i r Hr%list_elem_of_lookup_2.
  apply list_elem_of_filter in Hr as [Hr _]. rewrite Hr.
  destruct (decide (y = x)) as [->|Hne].
  - by rewrite (proj2 (sql_eq_text (VText x) x)).
  - rewrite (proj2 (sql_eq_text_false (VText y) x)); [done|congruence].
Qed.

Lemma paths_of_agree (keep : string → Prop) w0 w :
  keep "image_path" → agree_on keep w0 w →
  paths_of (imgdata w) = paths_of (imgdata w0).
Proof.
  intros Hk [_ Hr]. unfold paths_of.
  induction Hr as [|r0 r l0 l Hf Hr IH]; [done|].
  simpl. rewrite (Hf "image_path" Hk).
  destruct (text_of (get r0 "image_path")); [f_equal|]; exact IH.
Qed.

Section Sequences.

Variable registry : list field_def.
Variable uuid4 : nat → string.
Variable files : string → string → option image.

(** X24. Ungrouping does not undo a merge: in a table whose column
    names [namedtuple] accepts, after [set_related a b] and
    then [unset_related a], the record [a] is in a group of its own
    again, under a newly drawn identifier, but keeps every value the
    copy pass gave it; the record [b] stays as the merge left it. *)
Theorem unset_related_keeps_copies w a b (A B : row) :
  schema_ok registry (imgdata w) = true →
  tuple_fields_ok (imgdata w) = true → a ≠ b →
  records_of (imgdata w) a = [A] → records_of (imgdata w) b = [B] →
  ∃ w1 w2 A2,
    set_related registry a b w = (w1, Returned tt) ∧
    unset_related uuid4 a w1 = (w2, Returned tt) ∧
    records_of (imgdata w2) a = [A2] ∧
    gid A2 = VText (uuid4 (uuid_calls w)) ∧
    (∀ f, f ≠ "group_id" →
          get A2 f = if copyable registry f && is_none (get A f)
                     then get B f else get A f) ∧
    records_of (imgdata w2) b = records_of (imgdata w1) b.
Proof.
  intros Hs Hn Hab HA HB.
  pose proof (set_related_merges registry w a b A B Hs Hn Hab HA HB) as Hm.
  destruct (records_of_merged registry (imgdata w) a b A B Hab HA HB)
    as (HA1 & HB1 & _).
  set (w1 := World (Table (columns (imgdata w))
                      (merge_rows registry a b A B <$> rows (imgdata w)))
                   (uuid_calls w)) in *.
  pose proof Hs as Hs'. unfold schema_ok in Hs'.
  apply andb_prop in Hs' as [[Hc1 Hc2]%andb_prop _].
  assert (∀ r : row, oid (assign [("group_id", VText (uuid4 (uuid_calls w)))] r)
                     = oid r) as Hoid.
  { intros r. unfold oid, assign. simpl. by rewrite get_insert. }
  eexists w1, _, _. split_and!.
  - exact Hm.
  - unfold unset_related. erewrite bind_returned by reflexivity.
    apply update_where_ok; [exact Hc1|].
    change (has_column (imgdata w) "group_id" && true = true).
    by rewrite Hc2.
  - rewrite records_of_updated by done.
    assert (records_of (imgdata (World (imgdata w1) (S (uuid_calls w1)))) a
            = [merged_from registry A B]) as -> by exact HA1.
    by rewrite decide_True.
  - unfold gid, assign. simpl. by rewrite get_insert.
  - intros f Hf. unfold assign. simpl.
    rewrite get_insert, decide_False by done.
    rewrite get_merged_from. by rewrite decide_False.
  - rewrite records_of_updated by done.
    rewrite decide_False by congruence. apply list_fmap_id.
Qed.

Lemma paths_of_set_related a b w :
  copyable registry "image_path" = false →
  paths_of (imgdata (set_related registry a b w).1) = paths_of (imgdata w).
Proof.
  intros Hk.
  pose proof (triple_set_related_agree registry (uuid_calls w) w a b w
                (conj eq_refl (agree_on_refl _ w))) as H.
  destruct (set_related registry a b w) as [w' [u|e]]; simpl;
    by eapply paths_of_agree; [|apply H].
Qed.

Lemma paths_of_unset_related a w :
  paths_of (imgdata (unset_related uuid4 a w).1) = paths_of (imgdata w).
Proof.
  destruct (unset_related_cases uuid4 a w) as [-> | ->]; [|done].
  apply (paths_of_agree (λ f, f ≠ "group_id") w (updated _ _ _)); [done|].
  apply agree_on_updated; [by intros f Hf%list_elem_of_singleton Hk|].
  exact (agree_on_refl _ w).
Qed.

Lemma paths_of_step_unique w o :
  copyable registry "image_path" = false →
  NoDup (paths_of (imgdata w)) →
  NoDup (paths_of (imgdata (step registry uuid4 files w o))).
Proof.
  intros Hk Hnd. destruct o as [basedir ps|a b|a]; simpl.
  - rewrite add_images_for_each.
    pose proof (for_each_ingest_inv uuid4 files
                  (λ w, NoDup (paths_of (imgdata w))) basedir ps w
                  (ingest_keeps_paths_unique uuid4 files basedir) Hnd) as H.
    by destruct (for_each ps _ w) as [w' [[]|e]].
  - by rewrite paths_of_set_related.
  - by rewrite paths_of_unset_related.
Qed.

Lemma paths_of_run_unique ops w :
  copyable registry "image_path" = false →
  NoDup (paths_of (imgdata w)) →
  NoDup (paths_of (imgdata (run registry uuid4 files ops w))).
Proof.
  intros Hk. unfold run. revert w.
  induction ops as [|o ops IH]; intros w Hw; [done|].
  simpl. by apply IH, paths_of_step_unique.
Qed.

Hypothesis uuid4_inj : Inj (=) (=) uuid4.

(** X25. Uniqueness.  After any sequence of [add_images], [set_related]
    and [unset_related] calls on a table that started empty, no two
    records share an [observation_id], none has a null one, and no two
    records share an [image_path] (with [uuid4()] never repeating an
    identifier, and [image_path] not a copy-on-merge field). *)
Theorem run_keeps_records_unique ops w0 :
  rows (imgdata w0) = [] →
  copyable registry "image_path" = false →
  let w := run registry uuid4 files ops w0 in
  NoDup (oid <$> rows (imgdata w)) ∧
  Forall (λ r, oid r ≠ VNull) (rows (imgdata w)) ∧
  NoDup (paths_of (imgdata w)).
Proof.
  intros H0 Hk w.
  pose proof (ingested_run registry uuid4 files uuid4_inj ops w0
                (ingested_empty uuid4 w0 H0)) as (Hid & Hnd & _).
  split_and!; [done| |].
  - eapply Forall_impl; [exact Hid|]. intros r [Ho _].
    by eapply drawn_not_null.
  - apply paths_of_run_unique; [done|].
    unfold paths_of. rewrite H0. constructor.
Qed.

End Sequences.

(** * The rest of the program on the small store *)

Module MoreDemoFacts.
Import Demo.

Lemma store_paths : paths_of (imgdata store) = ["b.jpg"; "a.jpg"; "c.jpg"].
Proof. by vm_compute. Qed.

Lemma registry_typed : is_Some (field_types registry).
Proof. eexists. by vm_compute. Qed.

Lemma registry_names_nodup : NoDup (fd_name <$> registry).
Proof. apply (bool_decide_unpack _). by vm_compute. Qed.

Lemma book_imports : ∃ t, xlsx_to_sqlite registry Demo2.book = Returned t.
Proof.
  apply xlsx_to_sqlite_ok.
  - exact registry_typed.
  - discriminate.
  - apply (bool_decide_unpack _). by vm_compute.
  - repeat constructor.
Qed.

Lemma add_images_skips_present_witness :
  add_images uuid4 files "pics" ["a.jpg"; "c.jpg"; "a.jpg"] store
  = (store, Returned None).
Proof.
  apply add_images_skips_present; [by vm_compute|].
  rewrite store_paths. apply Forall_forall.
  apply (bool_decide_unpack _). by vm_compute.
Defined.

Lemma add_images_keeps_paths_unique_witness :
  NoDup (paths_of (imgdata
           (add_images uuid4 files "pics" ["d.jpg"; "d.jpg"; "b.jpg"] store).1)).
Proof.
  apply add_images_keeps_paths_unique.
  rewrite store_paths. apply (bool_decide_unpack _). by vm_compute.
Defined.

Lemma two_images_returned :
  (add_images uuid4 files "pics" ["a.jpg"; "b.jpg"; "a.jpg"] empty_store).2
  = Returned None.
Proof. by vm_compute. Qed.

Lemma add_images_returned_present_witness :
  let w' := (add_images uuid4 files "pics" ["a.jpg"; "b.jpg"; "a.jpg"]
               empty_store).1 in
  extends empty_store w' ∧
  ∀ p, p ∈ ["a.jpg"; "b.jpg"; "a.jpg"] → p ∈ paths_of (imgdata w').
Proof.
  intros w'.
  apply (add_images_returned_present uuid4 files "pics"
           ["a.jpg"; "b.jpg"; "a.jpg"] empty_store w' None).
  rewrite <- two_images_returned. apply surjective_pairing.
Defined.

Lemma one_image_returned :
  (add_images uuid4 files "pics" ["a.jpg"] empty_store).2 = Returned None.
Proof. by vm_compute. Qed.

Lemma add_images_aborts_unreadable_witness :
  add_images uuid4 files "pics" (["a.jpg"] ++ "x.jpg" :: ["b.jpg"]) empty_store
  = ((add_images uuid4 files "pics" ["a.jpg"] empty_store).1, Raised OSError).
Proof.
  apply (add_images_aborts_unreadable uuid4 files "pics" ["a.jpg"] "x.jpg"
           ["b.jpg"] empty_store _ None).
  - rewrite <- one_image_returned. apply surjective_pairing.
  - by vm_compute.
  - assert (paths_of (imgdata
              (add_images uuid4 files "pics" ["a.jpg"] empty_store).1)
            = ["a.jpg"]) as -> by by vm_compute.
    apply (bool_decide_unpack _). by vm_compute.
  - by vm_compute.
Defined.

Lemma add_images_aborts_missing_exif_witness :
  add_images uuid4 Demo2.files "pics" ["d.jpg"; "a.jpg"] empty_store
  = (empty_store, Raised KeyError).
Proof.
  apply (add_images_aborts_missing_exif uuid4 Demo2.files "pics" "d.jpg"
           ["a.jpg"] empty_store Demo2.image_d).
  - by vm_compute.
  - apply not_elem_of_nil.
  - by vm_compute.
  - left. by vm_compute.
Defined.


Lemma xlsx_to_sqlite_schema_witness :
  ∃ t, xlsx_to_sqlite registry Demo2.book = Returned t ∧
       (columns t).*1 = declared_fields registry Demo2.book ∧
       ("seen_by", "text") ∈ columns t ∧
       ("image_bytes", "int") ∈ columns t.
Proof.
  destruct book_imports as [t Ht]. exists t. split; [done|].
  destruct (xlsx_to_sqlite_schema registry Demo2.book t Ht registry_names_nodup)
    as (Hn & _ & _ & Hdecl & Hundecl).
  split_and!; [done| |].
  - apply Hundecl; apply (bool_decide_unpack _); by vm_compute.
  - apply (Hdecl (FieldDef "image_bytes" (Some "int") false)); [|done].
    unfold registry. rewrite !elem_of_cons. by right; right; left.
Defined.

Lemma xlsx_to_sqlite_rows_witness :
  ∃ t, xlsx_to_sqlite registry Demo2.book = Returned t ∧
       project ["image_path"; "species"; "seen_by"] t =
         [[VText "a.jpg"; VText "fox"; VText "ann"];
          [VText "b.jpg"; VNull; VText "bob"]] ∧
       ∀ r, r ∈ rows t → get r "group_id" = VNull.
Proof.
  destruct book_imports as [t Ht]. exists t. split; [done|].
  destruct (xlsx_to_sqlite_rows registry Demo2.book t Ht) as [Hp Hnull];
    [by vm_compute|].
  split; [exact Hp|]. intros r Hr. apply Hnull; [done|].
  apply (bool_decide_unpack _). by vm_compute.
Defined.

Lemma xlsx_to_sqlite_duplicate_header_witness :
  xlsx_to_sqlite registry Demo2.twice = Raised OperationalError.
Proof.
  apply xlsx_to_sqlite_duplicate_header; [exact registry_typed|].
  apply (bool_decide_unpack _). by vm_compute.
Defined.

Lemma xlsx_to_sqlite_untyped_field_witness :
  xlsx_to_sqlite Demo2.untyped Demo2.book = Raised KeyError.
Proof.
  apply (xlsx_to_sqlite_untyped_field Demo2.untyped Demo2.book
           (FieldDef "species" None true)); [|done].
  unfold Demo2.untyped. rewrite !elem_of_cons. by right; left.
Defined.

Lemma xlsx_to_sqlite_schema_ok_witness :
  ∃ t, xlsx_to_sqlite registry Demo2.book = Returned t ∧
       schema_ok registry t = true.
Proof.
  destruct book_imports as [t Ht]. exists t. split; [done|].
  apply (xlsx_to_sqlite_schema_ok registry Demo2.book t Ht);
    apply (bool_decide_unpack _); by vm_compute.
Defined.

Lemma import_export_round_trip_witness :
  ∃ t, xlsx_to_sqlite registry Demo2.book = Returned t ∧
       sqlite_to_xlsx (Sheet ["image_path"; "species"; "seen_by"]
                             [[VNull; VNull; VNull]]) (World t 7)
       = (World t 7, Returned Demo2.book).
Proof.
  destruct book_imports as [t Ht]. exists t. split; [done|].
  apply (import_export_round_trip registry Demo2.book);
    [exact Ht | discriminate | reflexivity | by vm_compute | by vm_compute].
Defined.


Lemma replace_colons_date_witness :
  replace_char ":"%char "/"%char 2 "2023:06:01 18:30:00" = "2023/06/01 18:30:00"
  ∧ String.length (replace_char ":"%char "/"%char 2 "2023:06:01 18:30:00")
    = String.length "2023:06:01 18:30:00".
Proof.
  apply (replace_colons_date "2023" "06" "01 18:30:00"); reflexivity.
Defined.

Lemma iter_set_elements s : Demo2.iter_set s ≡ₚ elements s.
Proof. reflexivity. Qed.

Lemma folder_loaded :
  (load_new uuid4 files Demo2.image_list Demo2.iter_set "pics" empty_store).2
  = Returned tt.
Proof. by vm_compute. Qed.

Lemma load_new_covers_folder_witness :
  let w' := (load_new uuid4 files Demo2.image_list Demo2.iter_set "pics"
               empty_store).1 in
  extends empty_store w' ∧
  (∀ q, q ∈ paths_of (imgdata w') ↔
        q ∈ paths_of (imgdata empty_store) ∨ q ∈ Demo2.image_list "pics") ∧
  (NoDup (paths_of (imgdata empty_store)) → NoDup (paths_of (imgdata w'))).
Proof.
  intros w'.
  apply (load_new_covers_folder uuid4 files Demo2.image_list Demo2.iter_set
           iter_set_elements "pics" empty_store w').
  rewrite <- folder_loaded. apply surjective_pairing.
Defined.

Lemma load_new_then_check_new_witness :
  let w' := (load_new uuid4 files Demo2.image_list Demo2.iter_set "pics"
               empty_store).1 in
  (∃ rep, check_new Demo2.image_list "pics" w' = (w', Returned rep) ∧
          folder_only rep = 0%nat ∧ in_both rep = in_folder rep) ∧
  load_new uuid4 files Demo2.image_list Demo2.iter_set "pics" w'
  = (w', Returned tt).
Proof.
  intros w'.
  apply (load_new_then_check_new uuid4 files Demo2.image_list Demo2.iter_set
           iter_set_elements "pics" empty_store w').
  rewrite <- folder_loaded. apply surjective_pairing.
Defined.

Lemma check_new_report_witness :
  ∃ rep, check_new Demo2.image_list "pics" store = (store, Returned rep) ∧
         in_folder rep = (folder_only rep + in_both rep)%nat ∧
         in_data rep = (data_only rep + in_both rep)%nat.
Proof. apply check_new_report. by vm_compute. Defined.

(** What [check_new] prints for the small store: two images in the
    folder, three records, one of them for an image that is gone. *)
Lemma check_new_demo :
  (check_new Demo2.image_list "pics" store).2 = Returned (Report 2 3 0 1 2).
Proof. by vm_compute. Qed.

Lemma unset_related_keeps_copies_witness :
  ∃ w1 w2 A2,
    set_related registry "a" "b" store = (w1, Returned tt) ∧
    unset_related uuid4 "a" w1 = (w2, Returned tt) ∧
    records_of (imgdata w2) "a" = [A2] ∧
    gid A2 = VText "0" ∧
    get A2 "species" = VText "fox".
Proof.
  destruct (unset_related_keeps_copies registry uuid4 store "a" "b" rec_a rec_b)
    as (w1 & w2 & A2 & H1 & H2 & HA2 & Hg & Hf & _);
    [exact DemoFacts.schema | exact DemoFacts.fields_ok | discriminate
    | exact DemoFacts.records_a | exact DemoFacts.records_b |].
  exists w1, w2, A2. split_and!; [done..|].
  rewrite Hf by discriminate. by vm_compute.
Defined.

Lemma run_keeps_records_unique_witness :
  let w := run registry uuid4 files
             [AddImages "pics" ["a.jpg"; "b.jpg"]; SetRelated "0" "2";
              UnsetRelated "0"; AddImages "pics" ["a.jpg"; "x.jpg"]]
             empty_store in
  NoDup (oid <$> rows (imgdata w)) ∧
  Forall (λ r, oid r ≠ VNull) (rows (imgdata w)) ∧
  NoDup (paths_of (imgdata w)).
Proof.
  apply (run_keeps_records_unique registry uuid4 files pretty_nat_inj);
    [reflexivity | by vm_compute].
Defined.

End MoreDemoFacts.
